(** * ECE complaint portal: the Express/Mongoose server, embedded in Rocq

    The program is one Express application over two Mongoose collections
    ([User], [Complaint]).  Every route handler is a short read/modify/write
    sequence against the collections, so the embedding is by explicit state
    passing: a handler takes the database and the request and returns the
    database and the response.

    Layers, bottom up:
    - [Mongo]: what the handlers use of MongoDB/Mongoose: a collection is the
      list of its documents in insertion order, with one unique index;
    - [User], [Complaint]: the two schemas;
    - the route handlers and [seedUsers], one definition per source function;
    - invariants of the reachable databases, then the properties.

    The repository holds two copies of the server.  The model follows the
    later one (it allocates complaint ids, promotes students and deletes
    complaints); [Legacy] records where the copy in [src/server.js] differs
    in filing a complaint.

    Boundary of the model.  A request body is taken after [express.json] and
    Mongoose's schema casting: a partial record over the schema's paths, each
    present value of the path's type (paths outside the schema are dropped by
    Mongoose's strict mode; bodies that do not cast are outside the model).
    The store is reachable and its unique indexes are built; requests run one
    at a time.  Counts stay below 2^53, where JavaScript numbers are exact. *)

From stdpp Require Import base option list strings pretty.

Local Open Scope string_scope.
Local Open Scope list_scope.

(** ** JSON values: the entries of the [history] and [chat] arrays *)

#[local] Unset Elimination Schemes.
Inductive json :=
| JNull
| JBool (b : bool)
| JNum (z : Z)
| JStr (s : string)
| JArr (l : list json)
| JObj (kv : list (string * json)).
#[local] Set Elimination Schemes.

(** [{ ...old, ...new }] on one path: a present value wins. *)
Definition overlay {A} (new old : option A) : option A :=
  match new with
  | Some v => Some v
  | None => old
  end.

(** ** MongoDB collections as Mongoose exposes them *)

Module Mongo.

Inductive error :=
| DuplicateKey.

(** [e.message] *)
Definition message (e : error) : string :=
  match e with
  | DuplicateKey => "E11000 duplicate key error"
  end.

(** A rejected promise ([Throw]) or its value ([Ok]). *)
Inductive result (A : Type) :=
| Ok (a : A)
| Throw (e : error).
Global Arguments Ok {A} a.
Global Arguments Throw {A} e.

Section Collection.
(** [D] is the document type, [oid] its [_id], [ukey] the path with the
    [unique: true] index.  A document without the path is indexed under
    null ([None]), like every other such document. *)
Context {D : Type} (oid : D → nat) (ukey : D → option string).

Definition countDocuments (c : list D) : nat := length c.

(** [doc.save()] of a new document / one document of [insertMany]. *)
Definition insertOne (d : D) (c : list D) : result (list D) :=
  if decide (ukey d ∈ ukey <$> c) then Throw DuplicateKey
  else Ok (c ++ [d]).

(** [Model.insertMany(docs)], ordered: stops at the first rejected
    document, the earlier ones stay inserted. *)
Fixpoint insertMany (ds : list D) (c : list D) : list D * option error :=
  match ds with
  | [] => (c, None)
  | d :: ds' =>
      match insertOne d c with
      | Ok c' => insertMany ds' c'
      | Throw e => (c, Some e)
      end
  end.

Section Query.
Context (P : D → Prop) `{!∀ d, Decision (P d)}.

(** [Model.find(filter)] *)
Definition find (c : list D) : list D := filter P c.

(** [Model.findOne(filter)]: the first match in natural order. *)
Definition findOne (c : list D) : option D := snd <$> list_find P c.

(** Writing [d'] over the document at position [i], which held [d]:
    the index rejects it when the key changes to one that another
    document holds. *)
Definition replaceAt (i : nat) (d d' : D) (c : list D) : result (list D) :=
  if decide (ukey d' ≠ ukey d ∧ ukey d' ∈ ukey <$> delete i c)
  then Throw DuplicateKey
  else Ok (<[i := d']> c).

(** [Model.findOneAndUpdate(filter, update)] and [updateOne]: the first
    match is updated in place; without a match nothing is written (no
    upsert) and the promise resolves to null. *)
Definition findOneAndUpdate (upd : D → D) (c : list D) : result (list D) :=
  match list_find P c with
  | Some (i, d) => replaceAt i d (upd d) c
  | None => Ok c
  end.

(** [Model.findOneAndDelete(filter)] *)
Definition findOneAndDelete (c : list D) : list D :=
  match list_find P c with
  | Some (i, _) => delete i c
  | None => c
  end.
End Query.

(** [Model.bulkWrite(ops)] with [updateOne] operations filtered by
    [_id], ordered: stops at the first error. *)
Fixpoint bulkWrite (ops : list (nat * (D → D))) (c : list D)
  : list D * option error :=
  match ops with
  | [] => (c, None)
  | (x, upd) :: ops' =>
      match findOneAndUpdate (λ d, oid d = x) upd c with
      | Ok c' => bulkWrite ops' c'
      | Throw e => (c, Some e)
      end
  end.
End Collection.

End Mongo.

Import Mongo.

(** ** Schemas *)

Module User.

(** [UserSchema].  A request body is a [fields] with the absent paths
    [None]; a stored document is a [fields] under its [_id]. *)
Record fields := Fields {
  id : option string;
  role : option string;
  name : option string;
  email : option string;      (* unique: true *)
  pass : option string;
  dept : option string;
  year : option string;
  enroll : option string;
  isAdmin : option bool       (* default: false *)
}.

Record t := Doc { _id : nat; data : fields }.
#[local] Coercion data : t >-> fields.

Definition empty : fields :=
  Fields None None None None None None None None None.

(** [new User(body)]: the schema default fills [isAdmin]. *)
Definition new (oid : nat) (body : fields) : t :=
  Doc oid (Fields (id body) (role body) (name body) (email body) (pass body)
             (dept body) (year body) (enroll body)
             (Some (default false (isAdmin body)))).

(** The [$set] that Mongoose makes of a plain update object. *)
Definition set (patch : fields) (u : t) : t :=
  Doc (_id u)
    (Fields (overlay (id patch) (id u)) (overlay (role patch) (role u))
       (overlay (name patch) (name u)) (overlay (email patch) (email u))
       (overlay (pass patch) (pass u)) (overlay (dept patch) (dept u))
       (overlay (year patch) (year u)) (overlay (enroll patch) (enroll u))
       (overlay (isAdmin patch) (isAdmin u))).

(** The indexed path: [email: { type: String, unique: true }]. *)
Definition key (u : t) : option string := email u.

End User.

Coercion User.data : User.t >-> User.fields.

Module Complaint.

(** [ComplaintSchema] *)
Record fields := Fields {
  id : option string;         (* unique: true *)
  studentId : option string;
  studentName : option string;
  category : option string;
  title : option string;
  description : option string;
  attachment : option string;
  isAnon : option bool;
  status : option string;
  assignedTo : option string;
  history : option (list json);
  chat : option (list json);
  timestamp : option string
}.

Record t := Doc { _id : nat; data : fields }.
#[local] Coercion data : t >-> fields.

Definition empty : fields :=
  Fields None None None None None None None None None None None None None.

(** [{ ...body, id: newId }] *)
Definition with_id (newId : string) (body : fields) : fields :=
  Fields (Some newId) (studentId body) (studentName body) (category body)
    (title body) (description body) (attachment body) (isAnon body)
    (status body) (assignedTo body) (history body) (chat body)
    (timestamp body).

(** [new Complaint(obj)]: array paths default to the empty array. *)
Definition new (oid : nat) (obj : fields) : t :=
  Doc oid (Fields (id obj) (studentId obj) (studentName obj) (category obj)
             (title obj) (description obj) (attachment obj) (isAnon obj)
             (status obj) (assignedTo obj)
             (Some (default [] (history obj))) (Some (default [] (chat obj)))
             (timestamp obj)).

(** The [$set] that Mongoose makes of a plain update object. *)
Definition set (patch : fields) (c : t) : t :=
  Doc (_id c)
    (Fields (overlay (id patch) (id c))
       (overlay (studentId patch) (studentId c))
       (overlay (studentName patch) (studentName c))
       (overlay (category patch) (category c))
       (overlay (title patch) (title c))
       (overlay (description patch) (description c))
       (overlay (attachment patch) (attachment c))
       (overlay (isAnon patch) (isAnon c))
       (overlay (status patch) (status c))
       (overlay (assignedTo patch) (assignedTo c))
       (overlay (history patch) (history c))
       (overlay (chat patch) (chat c))
       (overlay (timestamp patch) (timestamp c))).

(** The schema's paths, to speak of "every field" at once. *)
Inductive path :=
| Id | StudentId | StudentName | Category | Title | Description
| Attachment | IsAnon | Status | AssignedTo | History | Chat | Timestamp.

Definition path_type (p : path) : Type :=
  match p with
  | IsAnon => bool
  | History | Chat => list json
  | _ => string
  end.

Definition get (p : path) (f : fields) : option (path_type p) :=
  match p with
  | Id => id f
  | StudentId => studentId f
  | StudentName => studentName f
  | Category => category f
  | Title => title f
  | Description => description f
  | Attachment => attachment f
  | IsAnon => isAnon f
  | Status => status f
  | AssignedTo => assignedTo f
  | History => history f
  | Chat => chat f
  | Timestamp => timestamp f
  end.

(** The indexed path: [id: { type: String, unique: true }]. *)
Definition key (c : t) : option string := id c.

End Complaint.

Coercion Complaint.data : Complaint.t >-> Complaint.fields.

(** ** The server *)

(** The database behind the connection: both collections, and the source of
    fresh [_id]s (Mongoose draws an ObjectId for every [new Model(..)]; the
    counter moves when a document is stored). *)
Record Db := {
  users : list User.t;
  complaints : list Complaint.t;
  next_oid : nat
}.

Definition empty_db : Db := {| users := []; complaints := []; next_oid := 0 |}.

(** What a handler sends: [res.json(..)], or [res.status(code).json({ error })]. *)
Inductive Response :=
| json_success                          (* { success: true } *)
| json_success_id (id : string)         (* { success: true, id } *)
| json_success_count (count : nat)      (* { success: true, count } *)
| json_user (user : User.t)
| json_users (all : list User.t)
| json_complaints (all : list Complaint.t)
| status_error (code : nat) (error : string).

Definition set_users (us : list User.t) (db : Db) : Db :=
  {| users := us; complaints := complaints db; next_oid := next_oid db |}.

Definition set_complaints (cs : list Complaint.t) (db : Db) : Db :=
  {| users := users db; complaints := cs; next_oid := next_oid db |}.

Definition tick (n : nat) (db : Db) : Db :=
  {| users := users db; complaints := complaints db;
     next_oid := n + next_oid db |}.

(** *** Seed data *)

Definition demoUsers : list User.fields :=
  [ User.Fields (Some "T01") (Some "teacher") (Some "Dr. Smith")
      (Some "teacher1@example.com") (Some "pass123") (Some "CSE")
      None None None;
    User.Fields (Some "T02") (Some "teacher") (Some "Prof. Jones")
      (Some "teacher2@example.com") (Some "pass123") (Some "CSE")
      None None None;
    User.Fields (Some "H01") (Some "hod") (Some "Head of Department")
      (Some "ecedepartment100@gmail.com") (Some "Secure@123") (Some "CSE")
      None None (Some true) ].

(** The documents Mongoose makes of a list of plain objects, with
    consecutive fresh [_id]s. *)
Definition new_users (oid : nat) (bodies : list User.fields) : list User.t :=
  imap (λ i body, User.new (oid + i) body) bodies.

(** [seedUsers]: the error of a rejected [insertMany] would reach the
    [catch] of the connection promise, which only logs it. *)
Definition seedUsers (db : Db) : Db :=
  let count := countDocuments (users db) in
  if decide (count = 0) then
    let docs := new_users (next_oid db) demoUsers in
    set_users (insertMany User.key docs (users db)).1
      (tick (length demoUsers) db)
  else db.

(** *** 1. Auth & Users *)

(** [POST /api/login] *)
Definition post_api_login (email pass : string) (db : Db) : Db * Response :=
  let user :=
    findOne (λ u : User.t, User.email u = Some email ∧ User.pass u = Some pass)
      (users db) in
  match user with
  | Some user => (db, json_user user)
  | None => (db, status_error 401 "Invalid credentials")
  end.

(** [POST /api/register] *)
Definition post_api_register (body : User.fields) (db : Db) : Db * Response :=
  let newUser := User.new (next_oid db) body in
  match insertOne User.key newUser (users db) with
  | Ok us => (set_users us (tick 1 db), json_success)
  | Throw e => (db, status_error 400 "Email likely already exists")
  end.

(** [GET /api/users] *)
Definition get_api_users (db : Db) : Db * Response :=
  (db, json_users (find (λ _, True) (users db))).

(** [PUT /api/users/:id] *)
Definition put_api_users (id : string) (body : User.fields) (db : Db)
  : Db * Response :=
  match findOneAndUpdate User.key (λ u : User.t, User.id u = Some id)
          (User.set body) (users db) with
  | Ok us => (set_users us db, json_success)
  | Throw e => (db, status_error 500 (message e))
  end.

(** [DELETE /api/users/:email] *)
Definition delete_api_users (email : string) (db : Db) : Db * Response :=
  (set_users (findOneAndDelete (λ u : User.t, User.email u = Some email)
                (users db)) db,
   json_success).

(** *** 2. Complaints *)

(** [GET /api/complaints] *)
Definition get_api_complaints (db : Db) : Db * Response :=
  (db, json_complaints (find (λ _, True) (complaints db))).

(** [POST /api/complaints] *)
Definition post_api_complaints (body : Complaint.fields) (db : Db)
  : Db * Response :=
  let count := countDocuments (complaints db) in
  let newId := pretty (count + 1) in
  let nc := Complaint.new (next_oid db) (Complaint.with_id newId body) in
  match insertOne Complaint.key nc (complaints db) with
  | Ok cs => (set_complaints cs (tick 1 db), json_success_id newId)
  | Throw e => (db, status_error 500 (message e))
  end.

(** [PUT /api/complaints/:id] *)
Definition put_api_complaints (id : string) (body : Complaint.fields) (db : Db)
  : Db * Response :=
  match findOneAndUpdate Complaint.key (λ c : Complaint.t, Complaint.id c = Some id)
          (Complaint.set body) (complaints db) with
  | Ok cs => (set_complaints cs db, json_success)
  | Throw e => (db, status_error 500 (message e))
  end.

(** The year progression inside [POST /api/users/promote-all]. *)
Definition newYear (year : option string) : option string :=
  if decide (year = Some "1") then Some "2"
  else if decide (year = Some "2") then Some "3"
  else if decide (year = Some "3") then Some "4"
  else if decide (year = Some "4") then Some "Graduated"
  else year.

(** [update: { year: newYear }] *)
Definition set_year (y : option string) : User.t → User.t :=
  User.set (User.Fields None None None None None None y None None).

(** The callback of [students.map(..)], with null as [None]. *)
Definition bulkOp (student : User.t) : option (nat * (User.t → User.t)) :=
  let y := newYear (User.year student) in
  if decide (y ≠ User.year student)
  then Some (User._id student, set_year y)
  else None.

(** [POST /api/users/promote-all] *)
Definition post_api_users_promote_all (db : Db) : Db * Response :=
  let students := find (λ u : User.t, User.role u = Some "student") (users db) in
  let bulkOps := omap bulkOp students in
  let written :=
    if decide (0 < length bulkOps)
    then bulkWrite User._id User.key bulkOps (users db)
    else (users db, None) in
  match written with
  | (us, None) => (set_users us db, json_success_count (length bulkOps))
  | (us, Some e) => (set_users us db, status_error 500 (message e))
  end.

(** [DELETE /api/complaints/:id] *)
Definition delete_api_complaints (id : string) (db : Db) : Db * Response :=
  (set_complaints
     (findOneAndDelete (λ c : Complaint.t, Complaint.id c = Some id)
        (complaints db)) db,
   json_success).

(** ** Runs of the server *)

(** One request, or the seed that runs when the connection opens. *)
Inductive Request :=
| Seed
| Login (email pass : string)
| Register (body : User.fields)
| ListUsers
| UpdateUser (id : string) (body : User.fields)
| DeleteUser (email : string)
| ListComplaints
| FileComplaint (body : Complaint.fields)
| UpdateComplaint (id : string) (body : Complaint.fields)
| PromoteAll
| DeleteComplaint (id : string).

Definition serve (r : Request) (db : Db) : Db * Response :=
  match r with
  | Seed => (seedUsers db, json_success)
  | Login email pass => post_api_login email pass db
  | Register body => post_api_register body db
  | ListUsers => get_api_users db
  | UpdateUser id body => put_api_users id body db
  | DeleteUser email => delete_api_users email db
  | ListComplaints => get_api_complaints db
  | FileComplaint body => post_api_complaints body db
  | UpdateComplaint id body => put_api_complaints id body db
  | PromoteAll => post_api_users_promote_all db
  | DeleteComplaint id => delete_api_complaints id db
  end.

(** Requests served one after the other; the responses in order. *)
Fixpoint run (rs : list Request) (db : Db) : Db * list Response :=
  match rs with
  | [] => (db, [])
  | r :: rs' =>
      let '(db1, resp) := serve r db in
      let '(db2, resps) := run rs' db1 in
      (db2, resp :: resps)
  end.

(** The databases the server can be in: those some run leaves behind,
    starting with empty collections. *)
Definition reachable (db : Db) : Prop := ∃ rs, (run rs empty_db).1 = db.

(** ** The earlier copy of the server *)

Module Legacy.

(** [POST /api/complaints] as [src/server.js] has it: the document is made
    of the body as it came, no id is allocated and none is sent back. *)
Definition post_api_complaints (body : Complaint.fields) (db : Db)
  : Db * Response :=
  let nc := Complaint.new (next_oid db) body in
  match insertOne Complaint.key nc (complaints db) with
  | Ok cs => (set_complaints cs (tick 1 db), json_success)
  | Throw e => (db, status_error 500 (message e))
  end.

End Legacy.

(** ** Notions used in the properties *)

(** What the unique indexes and the [_id] source keep true. *)
Record Inv (db : Db) : Prop := {
  inv_email : NoDup (User.key <$> users db);
  inv_id : NoDup (Complaint.key <$> complaints db);
  inv_oid : NoDup (User._id <$> users db);
  inv_fresh : Forall (λ u, User._id u < next_oid db) (users db)
}.

(** The effect of a list of [updateOne]-by-[_id] operations on one document:
    every operation whose filter matches it is applied, in order. *)
Definition apply_ops {D : Type} (oid : D → nat) (ops : list (nat * (D → D)))
  (d : D) : D :=
  foldl (λ d op, if decide (oid d = op.1) then op.2 d else d) d ops.

(** An operation that touches neither the [_id] nor the indexed path. *)
Definition quiet {D : Type} (oid : D → nat) (ukey : D → option string)
  (op : nat * (D → D)) : Prop :=
  ∀ d, oid (op.2 d) = oid d ∧ ukey (op.2 d) = ukey d.

(** Promotion of one user, in the words of the specification: a student's
    year goes one step through the progression, nothing else changes. *)
Definition promoted (u : User.t) : User.t :=
  if decide (User.role u = Some "student") then
    User.Doc (User._id u)
      (User.Fields (User.id u) (User.role u) (User.name u) (User.email u)
         (User.pass u) (User.dept u) (newYear (User.year u)) (User.enroll u)
         (User.isAdmin u))
  else u.

(** The users a promotion changes. *)
Definition promotable (u : User.t) : Prop :=
  User.role u = Some "student" ∧ newYear (User.year u) ≠ User.year u.

#[global] Instance promotable_dec u : Decision (promotable u).
Proof. unfold promotable. apply _. Defined.

(** The history and chat entries the database holds. *)
Definition stored_history (cs : list Complaint.t) : list json :=
  concat ((λ c : Complaint.t, default [] (Complaint.history c)) <$> cs).

Definition stored_chat (cs : list Complaint.t) : list json :=
  concat ((λ c : Complaint.t, default [] (Complaint.chat c)) <$> cs).

Definition files_or_deletes (r : Request) : Prop :=
  match r with
  | FileComplaint _ | DeleteComplaint _ => True
  | _ => False
  end.

(** "Ids are not reused after deletion", as the specification words it: once
    a complaint with id [d] was deleted, no later filing is given [d]. *)
Definition ids_never_reused : Prop :=
  ∀ (before : list Request) (d : string) (after : list Request)
    (body : Complaint.fields),
    Forall files_or_deletes before → Forall files_or_deletes after →
    let db1 := (run before empty_db).1 in
    (∃ c : Complaint.t, c ∈ complaints db1 ∧ Complaint.id c = Some d) →
    let db2 := (serve (DeleteComplaint d) db1).1 in
    let db3 := (run after db2).1 in
    (serve (FileComplaint body) db3).2 ≠ json_success_id d.

(** "An update of an existing complaint replaces exactly the fields of the
    patch", as the specification words it, for every patch. *)
Definition update_replaces_patch : Prop :=
  ∀ (db : Db) (id : string) (patch : Complaint.fields) (i : nat)
    (c : Complaint.t),
    reachable db →
    list_find (λ c : Complaint.t, Complaint.id c = Some id) (complaints db)
      = Some (i, c) →
    ∃ c' : Complaint.t, complaints (put_api_complaints id patch db).1
            = <[i := c']> (complaints db) ∧
          ∀ p, Complaint.get p c'
               = overlay (Complaint.get p patch) (Complaint.get p c).

(** ** Sample inputs *)

Definition student (email year : string) : User.fields :=
  User.Fields None (Some "student") None (Some email) (Some "pw") None
    (Some year) None None.

Definition noise : Complaint.fields :=
  Complaint.Fields None (Some "s1") None None (Some "Noise") None None
    (Some false) (Some "Pending") None None None None.

(** [{ status: "Resolved", assignedTo: "T01" }] *)
Definition resolved : Complaint.fields :=
  Complaint.Fields None None None None None None None None
    (Some "Resolved") (Some "T01") None None None.

(** [{ history: ["opened"], chat: ["hello"] }] *)
Definition logged : Complaint.fields :=
  Complaint.Fields None None None None None None None None None None
    (Some [JStr "opened"]) (Some [JStr "hello"]) None.

(** The database after the seed. *)
Definition seeded_db : Db := (run [Seed] empty_db).1.

(** The seed, then three students in years 3, 4 and Graduated. *)
Definition school_db : Db :=
  (run [Seed; Register (student "s1@x.com" "3");
        Register (student "s2@x.com" "4");
        Register (student "s3@x.com" "Graduated")] empty_db).1.

(** Two complaints filed. *)
Definition two_complaints_db : Db :=
  (run [FileComplaint noise; FileComplaint noise] empty_db).1.

(** Two complaints filed, the first with a history and a chat entry. *)
Definition logged_db : Db :=
  (run [FileComplaint noise; UpdateComplaint "1" logged; FileComplaint noise]
     empty_db).1.

(** ** Notions used in the further properties *)



(** The ids "1", ..., "n", as the index on [id] lists them. *)
Definition dense (n : nat) : list (option string) :=
  (λ k : nat, Some (pretty k)) <$> seq 1 n.

(** [n] promotions in a row. *)
Definition promote_times (n : nat) (db : Db) : Db :=
  Nat.iter n (λ db, (post_api_users_promote_all db).1) db.

(** The requests of section 1 (and the seed), and those of section 2. *)
Definition on_users (r : Request) : Prop :=
  match r with
  | Seed | Login _ _ | Register _ | ListUsers | UpdateUser _ _
  | DeleteUser _ | PromoteAll => True
  | _ => False
  end.

Definition on_complaints (r : Request) : Prop :=
  match r with
  | ListComplaints | FileComplaint _ | UpdateComplaint _ _
  | DeleteComplaint _ => True
  | _ => False
  end.

(** Two students registered under the same [id]. *)
Definition twin (email : string) : User.fields :=
  User.Fields (Some "S1") (Some "student") None (Some email) (Some "pw") None
    (Some "1") None None.

Definition twins_db : Db :=
  (run [Register (twin "a@x.com"); Register (twin "b@x.com")] empty_db).1.

(** [{ name: "Ann" }] and [{ email: "teacher2@example.com" }] *)
Definition renamed : User.fields :=
  User.Fields None None (Some "Ann") None None None None None None.

Definition takes_email : User.fields :=
  User.Fields None None None (Some "teacher2@example.com") None None None
    None None.

(** Two complaints filed, the first one deleted. *)
Definition blocked_db : Db :=
  (run [FileComplaint noise; FileComplaint noise; DeleteComplaint "1"]
     empty_db).1.

(** ** Facts about collections *)

(** Membership in a list that is known element by element. *)
Ltac each_member H :=
  repeat (apply elem_of_cons in H as [->|H]; [done|]);
  by apply elem_of_nil in H.

Section CollectionFacts.
Context {D : Type} (ukey : D → option string).
Implicit Types (c : list D) (d : D).

Lemma NoDup_fmap_eq {B} (f : D → B) c d1 d2 :
  NoDup (f <$> c) → d1 ∈ c → d2 ∈ c → f d1 = f d2 → d1 = d2.
Proof.
  induction c as [|x c IH]; simpl; [by intros _ ?%elem_of_nil|].
  rewrite NoDup_cons. intros [Hx Hc] [->|H1]%elem_of_cons [->|H2]%elem_of_cons Hf;
    [done| | |by apply IH].
  - destruct Hx. rewrite Hf. by apply list_elem_of_fmap_2.
  - destruct Hx. rewrite <-Hf. by apply list_elem_of_fmap_2.
Qed.

Lemma insertOne_Ok d c c' :
  insertOne ukey d c = Ok c' ↔ (ukey d ∉ ukey <$> c) ∧ c' = c ++ [d].
Proof.
  unfold insertOne. case_decide; split; [done|by intros []|by intros [= <-]|].
  by intros [_ ->].
Qed.

Lemma insertOne_Throw d c e :
  insertOne ukey d c = Throw e ↔ ukey d ∈ ukey <$> c.
Proof.
  unfold insertOne. case_decide; split; try done.
  by destruct e.
Qed.

Lemma insertOne_NoDup d c c' :
  NoDup (ukey <$> c) → insertOne ukey d c = Ok c' → NoDup (ukey <$> c').
Proof.
  intros Hc [Hfresh ->]%insertOne_Ok.
  rewrite fmap_app. apply NoDup_app. split_and!; [done| |apply NoDup_singleton].
  intros k Hk [->|[]%elem_of_nil]%elem_of_cons. done.
Qed.

Section QueryFacts.
Context (P : D → Prop) `{!∀ d, Decision (P d)}.

Lemma findOne_Some c d :
  findOne P c = Some d → d ∈ c ∧ P d.
Proof.
  unfold findOne. destruct (list_find P c) as [[i x]|] eqn:E; [|done].
  intros [= <-]. apply list_find_Some in E as (Hi & HP & _).
  split; [by eapply list_elem_of_lookup_2|done].
Qed.

Lemma findOne_None c :
  findOne P c = None ↔ ∀ d, d ∈ c → ¬ P d.
Proof.
  unfold findOne. rewrite fmap_None, list_find_None, Forall_forall. done.
Qed.

Lemma findOneAndUpdate_no_match upd c :
  (∀ d, d ∈ c → ¬ P d) → findOneAndUpdate ukey P upd c = Ok c.
Proof.
  intros Hno. unfold findOneAndUpdate.
  by rewrite (proj2 (list_find_None P c)) by by apply Forall_forall.
Qed.

Lemma findOneAndDelete_no_match c :
  (∀ d, d ∈ c → ¬ P d) → findOneAndDelete P c = c.
Proof.
  intros Hno. unfold findOneAndDelete.
  by rewrite (proj2 (list_find_None P c)) by by apply Forall_forall.
Qed.

(** The shape of a collection around its first match. *)
Lemma list_find_split c i d :
  list_find P c = Some (i, d) →
  ∃ c1 c2, c = c1 ++ d :: c2 ∧ length c1 = i ∧ P d ∧ ∀ x, x ∈ c1 → ¬ P x.
Proof.
  intros (Hi & HP & Hleast)%list_find_Some.
  exists (take i c), (drop (S i) c). split_and!.
  - by rewrite take_drop_middle.
  - apply length_take_le. apply lookup_lt_Some in Hi. lia.
  - done.
  - intros x [j Hj]%list_elem_of_lookup.
    pose proof (lookup_lt_Some _ _ _ Hj) as Hlt. rewrite length_take in Hlt.
    rewrite lookup_take_lt in Hj by lia. eapply Hleast; [done|lia].
Qed.

Lemma findOneAndDelete_match c i d :
  list_find P c = Some (i, d) →
  ∃ c1 c2, c = c1 ++ d :: c2 ∧ findOneAndDelete P c = c1 ++ c2 ∧
           P d ∧ ∀ x, x ∈ c1 → ¬ P x.
Proof.
  intros E. unfold findOneAndDelete. rewrite E.
  apply list_find_split in E as (c1 & c2 & -> & <- & HP & Hc1).
  exists c1, c2. split_and!; try done.
  clear. induction c1 as [|x c1 IH]; simpl; [done|by f_equal].
Qed.

Lemma findOneAndDelete_sublist c : findOneAndDelete P c `sublist_of` c.
Proof.
  unfold findOneAndDelete. destruct (list_find P c) as [[i x]|]; [|done].
  apply sublist_delete.
Qed.

Lemma replaceAt_NoDup i d d' c c' :
  NoDup (ukey <$> c) → c !! i = Some d →
  replaceAt ukey i d d' c = Ok c' → NoDup (ukey <$> c').
Proof.
  intros Hc Hi. unfold replaceAt. case_decide as Hdup; [done|].
  intros [= <-]. rewrite list_fmap_insert.
  destruct (decide (ukey d' = ukey d)) as [->|Hne].
  { by rewrite list_insert_id by by rewrite list_lookup_fmap, Hi. }
  assert (ukey d' ∉ (ukey <$> delete i c)) as Hfresh by naive_solver.
  rewrite list_fmap_delete in Hfresh.
  assert (i < length (ukey <$> c)) as Hlt.
  { rewrite length_fmap. by eapply lookup_lt_Some. }
  revert Hc Hfresh Hlt. generalize (ukey <$> c) (ukey d'). clear.
  intros l k. revert i. induction l as [|x l IH]; intros [|i]; simpl;
    rewrite ?NoDup_cons; try (intros; lia).
  - intros [_ Hl] Hk _. done.
  - intros [Hx Hl] [Hkx Hk]%not_elem_of_cons Hlt. split.
    + intros [j Hj]%list_elem_of_lookup.
      destruct (decide (i = j)) as [->|Hij].
      * rewrite list_lookup_insert_eq in Hj by lia. naive_solver.
      * rewrite list_lookup_insert_ne in Hj by done.
        apply Hx. by eapply list_elem_of_lookup_2.
    + apply IH; [done..|lia].
Qed.

Lemma findOneAndUpdate_NoDup upd c c' :
  NoDup (ukey <$> c) →
  findOneAndUpdate ukey P upd c = Ok c' → NoDup (ukey <$> c').
Proof.
  intros Hc. unfold findOneAndUpdate.
  destruct (list_find P c) as [[i d]|] eqn:E; [|by intros [= <-]].
  apply list_find_Some in E as (Hi & _). by eapply replaceAt_NoDup.
Qed.

Lemma findOneAndUpdate_oids (oid : D → nat) upd c c' :
  (∀ d, oid (upd d) = oid d) →
  findOneAndUpdate ukey P upd c = Ok c' → oid <$> c' = oid <$> c.
Proof.
  intros Hupd. unfold findOneAndUpdate, replaceAt.
  destruct (list_find P c) as [[i d]|] eqn:E; [|by intros [= <-]].
  case_decide; [done|]. intros [= <-].
  apply list_find_Some in E as (Hi & _).
  rewrite list_fmap_insert, Hupd.
  by rewrite list_insert_id by by rewrite list_lookup_fmap, Hi.
Qed.
End QueryFacts.

End CollectionFacts.

(** ** Bulk updates by [_id] *)

Section ApplyFacts.
Context {D : Type} (oid : D → nat).
Implicit Types (d : D) (ops : list (nat * (D → D))).

Lemma apply_ops_app ops1 ops2 d :
  apply_ops oid (ops1 ++ ops2) d = apply_ops oid ops2 (apply_ops oid ops1 d).
Proof. unfold apply_ops. apply foldl_app. Qed.

Lemma apply_ops_other ops d :
  oid d ∉ ops.*1 → apply_ops oid ops d = d.
Proof.
  unfold apply_ops. induction ops as [|[x upd] ops IH]; simpl; [done|].
  intros [Hx Hops]%not_elem_of_cons. rewrite decide_False by done. by apply IH.
Qed.
End ApplyFacts.

Section BulkFacts.
Context {D : Type} (oid : D → nat) (ukey : D → option string).
Implicit Types (c : list D) (d : D) (ops : list (nat * (D → D))).

Lemma updateOne_by_oid x upd c :
  NoDup (oid <$> c) → quiet oid ukey (x, upd) →
  findOneAndUpdate ukey (λ d, oid d = x) upd c
  = Ok ((λ d, if decide (oid d = x) then upd d else d) <$> c).
Proof.
  intros Hc Hq. unfold findOneAndUpdate.
  destruct (list_find _ c) as [[i d]|] eqn:E.
  - apply list_find_split in E as (c1 & c2 & -> & <- & Hd & Hc1).
    unfold replaceAt. destruct (Hq d) as [_ Hkey]. simpl in Hkey.
    case_decide as Hdup; [by destruct Hdup as [[] _]|]. f_equal.
    rewrite fmap_app, NoDup_app in Hc. destruct Hc as (_ & Hsep & Hc2).
    simpl in Hc2. apply NoDup_cons in Hc2 as [Hd2 _].
    rewrite fmap_app, fmap_cons, decide_True by done.
    rewrite insert_app_r_alt, Nat.sub_diag by done. simpl. f_equal; [|f_equal].
    + clear -Hc1. induction c1 as [|y c1 IH]; simpl; [done|].
      rewrite decide_False by (apply Hc1; left).
      f_equal. apply IH. intros z Hz. apply Hc1. by right.
    + clear -Hd Hd2. induction c2 as [|y c2 IH]; simpl; [done|].
      simpl in Hd2. apply not_elem_of_cons in Hd2 as [Hy Hd2].
      rewrite decide_False by congruence. f_equal. by apply IH.
  - f_equal. apply list_find_None in E. clear -E.
    induction E as [|y c Hy _ IH]; simpl; [done|].
    f_equal; [by rewrite decide_False|done].
Qed.

Lemma bulkWrite_quiet ops c :
  NoDup (oid <$> c) → Forall (quiet oid ukey) ops →
  bulkWrite oid ukey ops c = (apply_ops oid ops <$> c, None).
Proof.
  intros Hc Hops. revert c Hc.
  induction Hops as [|[x upd] ops Hq _ IH]; intros c Hc; simpl.
  { unfold apply_ops. simpl. by rewrite list_fmap_id. }
  rewrite updateOne_by_oid by done.
  rewrite IH.
  - f_equal. rewrite <-list_fmap_compose. done.
  - rewrite <-list_fmap_compose.
    erewrite (list_fmap_ext _ oid); [done|].
    intros i d _. simpl. case_decide; [apply Hq|done].
Qed.

Lemma apply_ops_oid ops d :
  Forall (quiet oid ukey) ops → oid (apply_ops oid ops d) = oid d.
Proof.
  unfold apply_ops. intros Hops. revert d.
  induction Hops as [|[x upd] ops Hq _ IH]; intros d; simpl; [done|].
  rewrite IH. case_decide; [apply Hq|done].
Qed.

Lemma apply_ops_ukey ops d :
  Forall (quiet oid ukey) ops → ukey (apply_ops oid ops d) = ukey d.
Proof.
  unfold apply_ops. intros Hops. revert d.
  induction Hops as [|[x upd] ops Hq _ IH]; intros d; simpl; [done|].
  rewrite IH. case_decide; [apply Hq|done].
Qed.
End BulkFacts.

(** ** Promotion *)

Section PromotionFacts.
Implicit Types (u : User.t) (us : list User.t).

Let is_student u : Prop := User.role u = Some "student".
Let ops_of us := omap bulkOp (find is_student us).

Lemma set_year_quiet y : quiet User._id User.key (0, set_year y).
Proof. by intros [oid []]. Qed.

Lemma bulkOp_Some u op :
  bulkOp u = Some op →
  op = (User._id u, set_year (newYear (User.year u))) ∧
  newYear (User.year u) ≠ User.year u.
Proof. unfold bulkOp. case_decide; [|done]. by intros [= <-]. Qed.

Lemma ops_of_quiet us : Forall (quiet User._id User.key) (ops_of us).
Proof.
  apply Forall_forall. intros op (u & _ & [-> _]%bulkOp_Some)%list_elem_of_omap.
  apply set_year_quiet.
Qed.

Lemma ops_of_oids us x : x ∈ (ops_of us).*1 → x ∈ User._id <$> us.
Proof.
  intros (op & -> & (u & Hu & [-> _]%bulkOp_Some)%list_elem_of_omap)%list_elem_of_fmap.
  apply list_elem_of_filter in Hu as [_ Hu]. simpl.
  by apply list_elem_of_fmap_2.
Qed.

Lemma ops_of_app us1 us2 : ops_of (us1 ++ us2) = ops_of us1 ++ ops_of us2.
Proof. unfold ops_of, find. by rewrite filter_app, omap_app. Qed.

Lemma newYear_overlay y : overlay (newYear y) y = newYear y.
Proof. unfold newYear. by repeat case_decide; destruct y. Qed.

Lemma ops_of_one u : apply_ops User._id (ops_of [u]) u = promoted u.
Proof.
  unfold ops_of, find, promoted. rewrite filter_cons, filter_nil.
  fold (is_student u). destruct (decide (is_student u)) as [Hs|Hs]; [|done].
  unfold bulkOp, apply_ops. simpl. case_decide as Hy; simpl.
  - rewrite decide_True by done. destruct u as [oid []]. simpl in *.
    unfold set_year, User.set. simpl. by rewrite newYear_overlay.
  - destruct u as [oid []]. simpl in *.
    by rewrite Hy.
Qed.

Lemma promoted_oid u : User._id (promoted u) = User._id u.
Proof. unfold promoted. by case_decide. Qed.

Lemma promoted_key u : User.key (promoted u) = User.key u.
Proof. unfold promoted. by case_decide. Qed.

Lemma ops_of_promoted us u :
  NoDup (User._id <$> us) → u ∈ us →
  apply_ops User._id (ops_of us) u = promoted u.
Proof.
  intros Hus (us1 & us2 & ->)%list_elem_of_split.
  rewrite fmap_app, fmap_cons in Hus.
  apply NoDup_app in Hus as (_ & Hsep & [Hu2 _]%NoDup_cons).
  rewrite (ops_of_app us1), (ops_of_app [u] us2 : ops_of (u :: us2) = _).
  rewrite !apply_ops_app.
  rewrite (apply_ops_other _ (ops_of us1)).
  - rewrite ops_of_one. apply apply_ops_other.
    rewrite promoted_oid. intros ?%ops_of_oids. done.
  - intros Hin%ops_of_oids. apply (Hsep _ Hin). left.
Qed.

Lemma ops_of_length us : length (ops_of us) = length (filter promotable us).
Proof.
  unfold ops_of, find. induction us as [|u us IH]; [done|].
  rewrite !filter_cons.
  destruct (decide (is_student u)) as [Hs|Hs];
    destruct (decide (promotable u)) as [[Hs' Hy]|Hn]; simpl;
    try done.
  - unfold bulkOp at 1. rewrite decide_True by done. simpl. by f_equal.
  - unfold bulkOp at 1. rewrite decide_False; [done|].
    intros Hy. apply Hn. by split.
Qed.

Lemma promote_all db :
  NoDup (User._id <$> users db) →
  post_api_users_promote_all db
  = (set_users (promoted <$> users db) db,
     json_success_count (length (filter promotable (users db)))).
Proof.
  intros Hoid. unfold post_api_users_promote_all. fold is_student.
  fold (ops_of (users db)).
  assert (bulkWrite User._id User.key (ops_of (users db)) (users db)
          = (promoted <$> users db, None)) as Hbulk.
  { rewrite bulkWrite_quiet by auto using ops_of_quiet. f_equal.
    apply list_fmap_ext. intros i u Hu.
    apply ops_of_promoted; [done|by eapply list_elem_of_lookup_2]. }
  rewrite <-ops_of_length.
  case_decide as Hlen; [by rewrite Hbulk|].
  destruct (ops_of (users db)) eqn:E; [|simpl in Hlen; lia].
  simpl in Hbulk. injection Hbulk as <-. done.
Qed.
End PromotionFacts.

(** ** Invariants of the reachable databases *)

Section Invariants.
Implicit Types (db : Db) (r : Request).

Lemma set_users_id db : set_users (users db) db = db.
Proof. by destruct db. Qed.

Lemma set_complaints_id db : set_complaints (complaints db) db = db.
Proof. by destruct db. Qed.

Lemma Inv_empty : Inv empty_db.
Proof. split; simpl; constructor. Qed.

(** The seed on an empty collection: no document is rejected. *)
Lemma seedUsers_empty db :
  users db = [] →
  seedUsers db
  = {| users := new_users (next_oid db) demoUsers;
       complaints := complaints db;
       next_oid := 3 + next_oid db |}.
Proof. destruct db as [us cs n]. simpl. intros ->. reflexivity. Qed.

Lemma seedUsers_nonempty db : users db ≠ [] → seedUsers db = db.
Proof.
  intros Hne. unfold seedUsers, countDocuments.
  case_decide as Hlen; [|done]. by apply nil_length_inv in Hlen.
Qed.

Lemma seedUsers_Inv db : Inv db → Inv (seedUsers db).
Proof.
  intros HI. destruct (decide (users db = [])) as [Hus|Hus];
    [|by rewrite seedUsers_nonempty].
  rewrite seedUsers_empty by done. destruct HI as [_ Hid _ _].
  split; simpl; [|done| |].
  - apply (bool_decide_unpack _). by vm_compute.
  - repeat (apply NoDup_cons; split;
              [rewrite ?elem_of_cons, elem_of_nil; lia|]).
    apply NoDup_nil_2.
  - repeat (apply Forall_cons; split; [simpl; lia|]). apply Forall_nil_2.
Qed.

Lemma register_Inv body db : Inv db → Inv (post_api_register body db).1.
Proof.
  intros [Hemail Hid Hoid Hfresh]. unfold post_api_register.
  destruct (insertOne _ _ _) as [us|e] eqn:E; [|done].
  assert (NoDup (User.key <$> us)) as Hemail'
    by (by eapply insertOne_NoDup).
  apply insertOne_Ok in E as [_ ->]. split; simpl; [done..| |].
  - rewrite fmap_app. apply NoDup_app. split_and!; [done| |apply NoDup_singleton].
    intros x (u & -> & Hu)%list_elem_of_fmap [Hx|[]%elem_of_nil]%elem_of_cons.
    rewrite Forall_forall in Hfresh. apply Hfresh in Hu. simpl in Hx. lia.
  - apply Forall_app. split.
    + eapply Forall_impl; [done|]. simpl. lia.
    + apply Forall_singleton. simpl. lia.
Qed.

Lemma put_users_Inv id body db : Inv db → Inv (put_api_users id body db).1.
Proof.
  intros [Hemail Hid Hoid Hfresh]. unfold put_api_users.
  destruct (findOneAndUpdate _ _ _ _) as [us|e] eqn:E; [|done].
  assert (NoDup (User.key <$> us)) as Hemail'
    by (by eapply findOneAndUpdate_NoDup).
  eapply (findOneAndUpdate_oids _ _ User._id) in E; [|done].
  split; simpl; [done..| |].
  - by rewrite E.
  - change (Forall ((λ x, x < next_oid db) ∘ User._id) us).
    rewrite <-Forall_fmap, E, Forall_fmap. done.
Qed.

Lemma delete_users_Inv email db : Inv db → Inv (delete_api_users email db).1.
Proof.
  intros [Hemail Hid Hoid Hfresh]. unfold delete_api_users. simpl.
  pose proof (findOneAndDelete_sublist
                (λ u : User.t, User.email u = Some email) (users db)) as Hsub.
  split; simpl; [|done| |].
  - apply (sublist_NoDup _ (User.key <$> users db)); [done|].
    by apply fmap_sublist.
  - apply (sublist_NoDup _ (User._id <$> users db)); [done|].
    by apply fmap_sublist.
  - rewrite Forall_forall in Hfresh |- *.
    intros u Hu. apply Hfresh. by eapply elem_of_sublist.
Qed.

Lemma promote_Inv db : Inv db → Inv (post_api_users_promote_all db).1.
Proof.
  intros [Hemail Hid Hoid Hfresh]. rewrite promote_all by done. simpl.
  assert (User.key <$> (promoted <$> users db) = User.key <$> users db) as Hk.
  { rewrite <-list_fmap_compose. apply list_fmap_ext.
    intros. apply promoted_key. }
  assert (User._id <$> (promoted <$> users db) = User._id <$> users db) as Ho.
  { rewrite <-list_fmap_compose. apply list_fmap_ext.
    intros. apply promoted_oid. }
  split; simpl; [by rewrite Hk|done|by rewrite Ho|].
  change (Forall ((λ x, x < next_oid db) ∘ User._id) (promoted <$> users db)).
  rewrite <-Forall_fmap, Ho, Forall_fmap. done.
Qed.

Lemma file_Inv body db : Inv db → Inv (post_api_complaints body db).1.
Proof.
  intros [Hemail Hid Hoid Hfresh]. unfold post_api_complaints.
  destruct (insertOne _ _ _) as [cs|e] eqn:E; [|done].
  split; simpl; [done| |done|].
  - by eapply insertOne_NoDup.
  - eapply Forall_impl; [done|]. simpl. lia.
Qed.

Lemma put_complaints_Inv id body db :
  Inv db → Inv (put_api_complaints id body db).1.
Proof.
  intros [Hemail Hid Hoid Hfresh]. unfold put_api_complaints.
  destruct (findOneAndUpdate _ _ _ _) as [cs|e] eqn:E; [|done].
  split; simpl; [done| |done..]. by eapply findOneAndUpdate_NoDup.
Qed.

Lemma delete_complaints_Inv id db :
  Inv db → Inv (delete_api_complaints id db).1.
Proof.
  intros [Hemail Hid Hoid Hfresh]. split; simpl; [done| |done..].
  apply (sublist_NoDup _ (Complaint.key <$> complaints db)); [done|].
  apply fmap_sublist, findOneAndDelete_sublist.
Qed.

Lemma serve_Inv r db : Inv db → Inv (serve r db).1.
Proof.
  destruct r; simpl;
    eauto using seedUsers_Inv, register_Inv, put_users_Inv, promote_Inv,
      file_Inv, put_complaints_Inv.
  - unfold post_api_login. by destruct (findOne _ _).
  - apply delete_users_Inv.
  - apply delete_complaints_Inv.
Qed.

Lemma run_Inv rs db : Inv db → Inv (run rs db).1.
Proof.
  revert db. induction rs as [|r rs IH]; intros db HI; simpl; [done|].
  pose proof (serve_Inv r db HI) as HI1.
  destruct (serve r db) as [db1 resp]. specialize (IH db1 HI1).
  by destruct (run rs db1) as [db2 resps].
Qed.

Lemma reachable_Inv db : reachable db → Inv db.
Proof. intros [rs <-]. apply run_Inv, Inv_empty. Qed.

Lemma run_app rs1 rs2 db :
  (run (rs1 ++ rs2) db).1 = (run rs2 (run rs1 db).1).1.
Proof.
  revert db. induction rs1 as [|r rs1 IH]; intros db; simpl; [done|].
  destruct (serve r db) as [db1 resp]. specialize (IH db1).
  destruct (run (rs1 ++ rs2) db1), (run rs1 db1). done.
Qed.

Lemma reachable_serve r db : reachable db → reachable (serve r db).1.
Proof.
  intros [rs <-]. exists (rs ++ [r]). rewrite run_app. simpl.
  by destruct (serve r _).
Qed.
End Invariants.

(** ** Filing complaints: the allocated id *)

Section Filing.
Implicit Types (db : Db) (body : Complaint.fields).

Lemma new_with_id oid newId body :
  Complaint.id (Complaint.new oid (Complaint.with_id newId body)) = Some newId.
Proof. done. Qed.

(** The two outcomes of a filing. *)
Lemma post_api_complaints_cases db body :
  let newId := pretty (length (complaints db) + 1) in
  let nc := Complaint.new (next_oid db) (Complaint.with_id newId body) in
  ((Some newId ∉ Complaint.key <$> complaints db) ∧
   post_api_complaints body db
   = (set_complaints (complaints db ++ [nc]) (tick 1 db),
      json_success_id newId))
  ∨ (Some newId ∈ Complaint.key <$> complaints db ∧
     post_api_complaints body db
     = (db, status_error 500 (message DuplicateKey))).
Proof.
  intros newId nc. unfold post_api_complaints, countDocuments.
  fold newId. fold nc. unfold insertOne.
  change (Complaint.key nc) with (Some newId).
  case_decide; [right|left]; done.
Qed.

Lemma pretty_fresh n :
  Some (pretty (n + 1)) ∉ (λ k : nat, Some (pretty k)) <$> seq 1 n.
Proof.
  intros (k & [= Hk] & Hin)%list_elem_of_fmap.
  apply (inj pretty) in Hk. apply elem_of_seq in Hin. lia.
Qed.

(** Filings into a collection that holds the ids 1..n in order. *)
Lemma run_files_dense bodies db n :
  Complaint.key <$> complaints db = (λ k : nat, Some (pretty k)) <$> seq 1 n →
  (run (FileComplaint <$> bodies) db).2
  = (λ k : nat, json_success_id (pretty k)) <$> seq (S n) (length bodies).
Proof.
  revert db n. induction bodies as [|body bodies IH]; intros db n Hdb; [done|].
  assert (length (complaints db) = n) as Hlen.
  { rewrite <-(length_fmap Complaint.key), Hdb, length_fmap. apply length_seq. }
  cbn [fmap list_fmap run serve].
  destruct (post_api_complaints_cases db body) as [[_ ->]|[Hdup _]].
  - set (db1 := set_complaints _ _).
    assert (Complaint.key <$> complaints db1
            = (λ k : nat, Some (pretty k)) <$> seq 1 (S n)) as Hdb1.
    { unfold db1. cbn [complaints set_complaints].
      rewrite fmap_app, Hdb, seq_S, fmap_app. cbn [fmap list_fmap].
      by rewrite Hlen, Nat.add_1_r. }
    specialize (IH db1 (S n) Hdb1).
    destruct (run _ db1) as [db2 resps]. cbn [snd] in *. rewrite IH.
    by rewrite Hlen, Nat.add_1_r.
  - rewrite Hdb, Hlen in Hdup. by apply pretty_fresh in Hdup.
Qed.
End Filing.

(** ** The properties *)

(** C1. A filing allocates the id on the server as the decimal string of
    (number of stored complaints + 1): either the complaint is stored under
    that id and the id is sent back, or that id is already taken and the
    filing is rejected with the store as it was.  Two filings into the empty
    store get "1" and then "2". *)
Theorem file_complaint_allocates_count_plus_one :
  (∀ (db : Db) (body : Complaint.fields),
     let newId := pretty (length (complaints db) + 1) in
     (∃ nc : Complaint.t,
        post_api_complaints body db
        = (set_complaints (complaints db ++ [nc]) (tick 1 db),
           json_success_id newId)
        ∧ Complaint.id nc = Some newId)
     ∨ (post_api_complaints body db
        = (db, status_error 500 (message DuplicateKey))
        ∧ ∃ c : Complaint.t, c ∈ complaints db ∧ Complaint.id c = Some newId))
  ∧ (∀ body1 body2 : Complaint.fields,
       (run [FileComplaint body1; FileComplaint body2] empty_db).2
       = [json_success_id "1"; json_success_id "2"]
       ∧ Complaint.key
           <$> complaints
                 (run [FileComplaint body1; FileComplaint body2] empty_db).1
         = [Some "1"; Some "2"]).
Proof.
  split.
  - intros db body newId.
    destruct (post_api_complaints_cases db body) as [[_ ->]|[Hdup ->]].
    + left. eexists. split; [done|]. apply new_with_id.
    + right. split; [done|].
      apply list_elem_of_fmap in Hdup as (c & Hc & Hin). by exists c.
  - intros body1 body2. by vm_compute.
Qed.

(** C10. A filing ignores an id the caller sends: the outcome is the same
    whatever id the body carries, and a complaint it stores carries the
    allocated (count + 1) id. *)
Theorem file_complaint_ignores_caller_id :
  ∀ (db : Db) (body : Complaint.fields) (forged : string),
    post_api_complaints (Complaint.with_id forged body) db
    = post_api_complaints body db
    ∧ ∀ c : Complaint.t,
        c ∈ complaints (post_api_complaints (Complaint.with_id forged body) db).1 →
        c ∈ complaints db
        ∨ Complaint.id c = Some (pretty (length (complaints db) + 1)).
Proof.
  intros db body forged.
  assert (post_api_complaints (Complaint.with_id forged body) db
          = post_api_complaints body db) as Heq by done.
  split; [done|]. rewrite Heq. intros c.
  destruct (post_api_complaints_cases db body) as [[_ ->]|[_ ->]]; simpl.
  - intros [Hc|Hc]%elem_of_app; [by left|right].
    apply list_elem_of_singleton in Hc as ->. done.
  - by left.
Qed.

(** A filing whose body carries the id "77" into the empty store. *)
Example forged_id_dropped :
  post_api_complaints (Complaint.with_id "77" noise) empty_db
  = post_api_complaints noise empty_db
  ∧ (post_api_complaints (Complaint.with_id "77" noise) empty_db).2
    = json_success_id "1".
Proof. by vm_compute. Qed.

(** The earlier copy of the handler keeps the id the caller sent. *)
Example legacy_keeps_caller_id :
  Complaint.key
    <$> complaints (Legacy.post_api_complaints (Complaint.with_id "77" noise)
                      empty_db).1
  = [Some "77"].
Proof. done. Qed.

(** C2, as the specification words it, fails: file two complaints, delete
    the one with id "2", file again: the new complaint is given "2". *)
Lemma ids_reused_after_delete : ¬ ids_never_reused.
Proof.
  intros H.
  apply (H [FileComplaint noise; FileComplaint noise] "2" [] noise).
  - repeat constructor.
  - constructor.
  - exists (Complaint.new 1 (Complaint.with_id "2" noise)).
    split; [|done]. vm_compute. right. left.
  - by vm_compute.
Qed.

(** The run behind it, response by response. *)
Example reuse_trace :
  (run [FileComplaint noise; FileComplaint noise; DeleteComplaint "2";
        FileComplaint noise] empty_db).2
  = [json_success_id "1"; json_success_id "2"; json_success;
     json_success_id "2"].
Proof. by vm_compute. Qed.

(** Deleting a complaint other than the last one blocks filing: the next
    id is the one a stored complaint carries. *)
Example filing_blocked_after_delete :
  (run [FileComplaint noise; FileComplaint noise; DeleteComplaint "1";
        FileComplaint noise] empty_db).2
  = [json_success_id "1"; json_success_id "2"; json_success;
     status_error 500 "E11000 duplicate key error"].
Proof. by vm_compute. Qed.

(** C2, amended.  The id given to a new complaint is the decimal string of
    (count + 1) and is not the id of any complaint stored at that moment;
    in a run of filings without deletes, from the empty store, the ids are
    "1", "2", ... in order, no two of them equal. *)
Theorem ids_distinct_without_deletes :
  (∀ (db : Db) (body : Complaint.fields) (i : string),
     (post_api_complaints body db).2 = json_success_id i →
     i = pretty (length (complaints db) + 1)
     ∧ ∀ c : Complaint.t, c ∈ complaints db → Complaint.id c ≠ Some i)
  ∧ (∀ bodies : list Complaint.fields,
       (run (FileComplaint <$> bodies) empty_db).2
       = (λ k : nat, json_success_id (pretty k)) <$> seq 1 (length bodies)
       ∧ NoDup (run (FileComplaint <$> bodies) empty_db).2).
Proof.
  split.
  - intros db body i.
    destruct (post_api_complaints_cases db body) as [[Hfresh ->]|[_ ->]];
      [|done].
    intros [= <-]. split; [done|]. intros c Hc Hid. apply Hfresh.
    apply list_elem_of_fmap. by exists c.
  - intros bodies. rewrite (run_files_dense bodies empty_db 0) by done.
    split; [done|]. apply NoDup_fmap_2; [|apply NoDup_seq].
    intros k1 k2 [= Hk]. by apply (inj pretty) in Hk.
Qed.

(** Three filings into the empty store. *)
Lemma ids_distinct_without_deletes_witness :
  (post_api_complaints noise two_complaints_db).2 = json_success_id "3"
  ∧ "3" = pretty (length (complaints two_complaints_db) + 1)
  ∧ ∀ c : Complaint.t,
      c ∈ complaints two_complaints_db → Complaint.id c ≠ Some "3".
Proof.
  split; [by vm_compute|].
  apply (proj1 ids_distinct_without_deletes two_complaints_db noise "3").
  by vm_compute.
Defined.

(** C3. Promotion sends the year of every student through 1→2, 2→3, 3→4,
    4→Graduated and leaves every other year (Graduated and the empty year
    among them) as it is; the users become the promoted users, those whose
    year does not change are not written, and the count sent back is the
    number of users whose year changed. *)
Theorem promote_all_students_progression (db : Db) :
  reachable db →
  newYear (Some "1") = Some "2" ∧ newYear (Some "2") = Some "3"
  ∧ newYear (Some "3") = Some "4" ∧ newYear (Some "4") = Some "Graduated"
  ∧ (∀ y, y ∉ [Some "1"; Some "2"; Some "3"; Some "4"] → newYear y = y)
  ∧ newYear (Some "Graduated") = Some "Graduated"
  ∧ newYear (Some "") = Some "" ∧ newYear None = None
  ∧ post_api_users_promote_all db
    = (set_users (promoted <$> users db) db,
       json_success_count (length (filter promotable (users db))))
  ∧ (omap bulkOp (find (λ u : User.t, User.role u = Some "student") (users db))).*1
    = User._id <$> filter promotable (users db)
  ∧ ∀ u : User.t, promoted u ≠ u ↔ promotable u.
Proof.
  intros [_ _ Hoid _]%reachable_Inv. split_and!; try done.
  - intros y Hy. rewrite !not_elem_of_cons in Hy. destruct Hy as (?&?&?&?&_).
    unfold newYear. repeat case_decide; congruence.
  - by apply promote_all.
  - unfold find. clear. induction (users db) as [|u us IH]; [done|].
    rewrite !filter_cons.
    destruct (decide (User.role u = Some "student")) as [Hs|Hs];
      destruct (decide (promotable u)) as [[Hs' Hy]|Hn]; simpl; try done.
    + unfold bulkOp at 1. rewrite decide_True by done. simpl. by f_equal.
    + unfold bulkOp at 1. rewrite decide_False; [done|].
      intros Hy. apply Hn. by split.
  - intros u. unfold promoted, promotable.
    destruct (decide (User.role u = Some "student")) as [Hs|Hs];
      [|by split; [intros []|intros [? _]]].
    destruct u as [oid []]; simpl in *. split.
    + intros Hne. split; [done|]. intros Hy. apply Hne. by rewrite Hy.
    + intros [_ Hy] [= Heq]. done.
Qed.

(** Years 3, 4 and Graduated: two users are written, the third is not. *)
Lemma promote_all_students_witness :
  post_api_users_promote_all school_db
  = (set_users (promoted <$> users school_db) school_db, json_success_count 2)
  ∧ User.year <$> (User.data <$> (promoted <$> users school_db))
    = [None; None; None; Some "4"; Some "Graduated"; Some "Graduated"].
Proof.
  split; [|by vm_compute].
  destruct (promote_all_students_progression school_db)
    as (_ & _ & _ & _ & _ & _ & _ & _ & -> & _).
  - by exists [Seed; Register (student "s1@x.com" "3");
               Register (student "s2@x.com" "4");
               Register (student "s3@x.com" "Graduated")].
  - by vm_compute.
Defined.

(** C4. The seed inserts the three demo accounts (two teachers, one hod)
    exactly when the user collection is empty, and otherwise changes
    nothing; a second seed leaves the database of the first. *)
Theorem seed_only_when_empty :
  ∀ db : Db,
    seedUsers db
    = (if decide (users db = [])
       then {| users := new_users (next_oid db) demoUsers;
               complaints := complaints db;
               next_oid := 3 + next_oid db |}
       else db)
    ∧ User.data <$> new_users (next_oid db) demoUsers
      = [ User.Fields (Some "T01") (Some "teacher") (Some "Dr. Smith")
            (Some "teacher1@example.com") (Some "pass123") (Some "CSE")
            None None (Some false);
          User.Fields (Some "T02") (Some "teacher") (Some "Prof. Jones")
            (Some "teacher2@example.com") (Some "pass123") (Some "CSE")
            None None (Some false);
          User.Fields (Some "H01") (Some "hod") (Some "Head of Department")
            (Some "ecedepartment100@gmail.com") (Some "Secure@123")
            (Some "CSE") None None (Some true) ]
    ∧ seedUsers (seedUsers db) = seedUsers db
    ∧ length (users (seedUsers (seedUsers db))) = length (users (seedUsers db)).
Proof.
  intros db.
  assert (seedUsers (seedUsers db) = seedUsers db) as Hidem.
  { destruct (decide (users db = [])) as [Hus|Hus].
    - rewrite (seedUsers_empty db) by done. apply seedUsers_nonempty.
      cbv [new_users demoUsers imap users]. done.
    - by rewrite !(seedUsers_nonempty db Hus). }
  split_and!; [|done|done|by rewrite Hidem].
  case_decide; [by apply seedUsers_empty|by apply seedUsers_nonempty].
Qed.

(** C5. Login returns the stored user whose email and pass both equal the
    inputs, there is at most one such user, and without one the answer is
    401 (Unauthorized); the database is as before in both cases. *)
Theorem authenticate_unique_match (db : Db) (email pass : string) :
  reachable db →
  (∀ u : User.t,
     u ∈ users db → User.email u = Some email → User.pass u = Some pass →
     post_api_login email pass db = (db, json_user u))
  ∧ (∀ u u' : User.t,
       u ∈ users db → u' ∈ users db →
       User.email u = Some email → User.email u' = Some email → u = u')
  ∧ ((∀ u : User.t,
        u ∈ users db →
        ¬ (User.email u = Some email ∧ User.pass u = Some pass)) →
     post_api_login email pass db = (db, status_error 401 "Invalid credentials")).
Proof.
  intros [Hemail _ _ _]%reachable_Inv.
  assert (∀ u u' : User.t,
            u ∈ users db → u' ∈ users db →
            User.email u = Some email → User.email u' = Some email → u = u')
    as Huniq.
  { intros u u' Hu Hu' He He'.
    apply (NoDup_fmap_eq User.key (users db)); [done..|].
    unfold User.key. congruence. }
  split_and!; [|done|].
  - intros u Hu He Hp. unfold post_api_login.
    destruct (findOne _ _) as [u'|] eqn:E.
    + apply findOne_Some in E as [Hu' [He' _]].
      by rewrite (Huniq u u').
    + rewrite findOne_None in E. destruct (E u Hu). done.
  - intros Hno. unfold post_api_login.
    by rewrite (proj2 (findOne_None _ _) Hno).
Qed.

(** After the seed: the first teacher logs in; a wrong password does not. *)
Lemma authenticate_witness :
  (post_api_login "teacher1@example.com" "pass123" seeded_db).2
  = json_user (User.new 0 (default User.empty (demoUsers !! 0)))
  ∧ (post_api_login "teacher1@example.com" "pass124" seeded_db).2
    = status_error 401 "Invalid credentials".
Proof.
  assert (reachable seeded_db) as Hr by (by exists [Seed]).
  split.
  - destruct (authenticate_unique_match seeded_db "teacher1@example.com"
                "pass123" Hr) as (Hfound & _ & _).
    rewrite (Hfound (User.new 0 (default User.empty (demoUsers !! 0))));
      [done| |done|done].
    vm_compute. left.
  - destruct (authenticate_unique_match seeded_db "teacher1@example.com"
                "pass124" Hr) as (_ & _ & Hnone).
    rewrite Hnone; [done|].
    intros u Hu [He Hp]. vm_compute in Hu. each_member Hu.
Defined.

(** C6. Registering with the email of a stored user is rejected with 400
    "Email likely already exists" (DuplicateEmailError) and the database is
    as before; in every reachable database two users with the same email
    are the same user. *)
Theorem register_duplicate_email (db : Db) (body : User.fields) (u : User.t) :
  reachable db → u ∈ users db → User.email u = User.email body →
  post_api_register body db
  = (db, status_error 400 "Email likely already exists")
  ∧ (∀ u1 u2 : User.t,
       u1 ∈ users db → u2 ∈ users db → User.email u1 = User.email u2 →
       u1 = u2)
  ∧ ∀ r : Request,
      ∀ u1 u2 : User.t,
        u1 ∈ users (serve r db).1 → u2 ∈ users (serve r db).1 →
        User.email u1 = User.email u2 → u1 = u2.
Proof.
  intros Hr Hu He. split_and!.
  - unfold post_api_register.
    destruct (insertOne _ _ _) as [us|e] eqn:E; [|done].
    apply insertOne_Ok in E as [Hfresh _]. destruct Hfresh.
    change (User.key (User.new (next_oid db) body)) with (User.email body).
    rewrite <-He. by apply (list_elem_of_fmap_2 User.key).
  - apply reachable_Inv in Hr as [Hemail _ _ _]. intros u1 u2 H1 H2 H12.
    by apply (NoDup_fmap_eq User.key (users db)).
  - intros r. apply (reachable_serve r), reachable_Inv in Hr as [Hemail _ _ _].
    intros u1 u2 H1 H2 H12.
    by apply (NoDup_fmap_eq User.key (users (serve r db).1)).
Qed.

(** After the seed, a second "teacher1@example.com" is turned away. *)
Lemma register_duplicate_email_witness :
  post_api_register (student "teacher1@example.com" "1") seeded_db
  = (seeded_db, status_error 400 "Email likely already exists").
Proof.
  apply (register_duplicate_email seeded_db
           (student "teacher1@example.com" "1")
           (User.new 0 (default User.empty (demoUsers !! 0)))).
  - by exists [Seed].
  - vm_compute. left.
  - done.
Defined.

(** C7. An update whose id matches no stored complaint answers
    [{ success: true }] and leaves the whole database as it was: nothing is
    created, nothing is changed. *)
Theorem update_missing_complaint_noop
  (db : Db) (id : string) (patch : Complaint.fields) :
  (∀ c : Complaint.t, c ∈ complaints db → Complaint.id c ≠ Some id) →
  put_api_complaints id patch db = (db, json_success).
Proof.
  intros Hno. unfold put_api_complaints.
  rewrite findOneAndUpdate_no_match by done. by rewrite set_complaints_id.
Qed.

(** Two complaints stored, an update of "999". *)
Lemma update_missing_complaint_witness :
  put_api_complaints "999" noise two_complaints_db
  = (two_complaints_db, json_success).
Proof.
  apply update_missing_complaint_noop.
  intros c Hc. vm_compute in Hc. each_member Hc.
Defined.

(** C8, as the specification words it, fails: with complaints "1" and "2"
    stored, the update of "1" with the patch [{ id: "2" }] is rejected by
    the unique index on [id] and nothing is replaced. *)
Lemma update_rejected_on_taken_id : ¬ update_replaces_patch.
Proof.
  intros H.
  destruct (H two_complaints_db "1" (Complaint.with_id "2" Complaint.empty) 0
              (Complaint.new 0 (Complaint.with_id "1" noise)))
    as (c' & Hcs & Hfields).
  - by exists [FileComplaint noise; FileComplaint noise].
  - by vm_compute.
  - specialize (Hfields Complaint.Id). vm_compute in Hcs.
    injection Hcs as <-. done.
Qed.

(** The answer in that case. *)
Example update_rejected_response :
  put_api_complaints "1" (Complaint.with_id "2" Complaint.empty)
    two_complaints_db
  = (two_complaints_db, status_error 500 "E11000 duplicate key error").
Proof. by vm_compute. Qed.

(** C8, amended.  An update of an existing complaint whose patch carries no
    id, or an id that no other stored complaint carries, replaces exactly
    the fields present in the patch, leaves its other fields as they were,
    and leaves every other complaint and the users unchanged. *)
Theorem update_complaint_frame
  (db : Db) (id : string) (patch : Complaint.fields) (i : nat)
  (c : Complaint.t) :
  list_find (λ c : Complaint.t, Complaint.id c = Some id) (complaints db)
    = Some (i, c) →
  (∀ (pid : string) (j : nat) (x : Complaint.t),
     Complaint.id patch = Some pid → complaints db !! j = Some x → j ≠ i →
     Complaint.id x ≠ Some pid) →
  ∃ c' : Complaint.t,
    put_api_complaints id patch db
    = (set_complaints (<[i := c']> (complaints db)) db, json_success)
    ∧ Complaint._id c' = Complaint._id c
    ∧ (∀ p, Complaint.get p c'
            = overlay (Complaint.get p patch) (Complaint.get p c))
    ∧ (∀ p, Complaint.get p patch = None →
            Complaint.get p c' = Complaint.get p c)
    ∧ (∀ j, j ≠ i → <[i := c']> (complaints db) !! j = complaints db !! j)
    ∧ length (<[i := c']> (complaints db)) = length (complaints db).
Proof.
  intros Hfind Hfree. exists (Complaint.set patch c).
  split_and!.
  - unfold put_api_complaints, findOneAndUpdate. rewrite Hfind.
    unfold replaceAt. rewrite decide_False; [done|].
    intros [Hne Hdup]. unfold Complaint.key in *. simpl in *.
    destruct (Complaint.id patch) as [pid|] eqn:Hpid; simpl in *; [|done].
    apply list_elem_of_fmap in Hdup as (x & Hx & Hin).
    apply list_elem_of_lookup in Hin as [j Hj].
    destruct (decide (j < i)) as [Hlt|Hge].
    + rewrite list_lookup_delete_lt in Hj by done.
      apply (Hfree pid _ x eq_refl) in Hj; [done|lia].
    + rewrite list_lookup_delete_ge in Hj by lia.
      apply (Hfree pid _ x eq_refl) in Hj; [done|lia].
  - done.
  - by intros [].
  - intros [] Hp; simpl in *; by rewrite Hp.
  - intros j Hj. by apply list_lookup_insert_ne.
  - apply length_insert.
Qed.

(** The update of the specification's example: status and assignee are
    replaced, title, history and chat stay. *)
Lemma update_complaint_frame_witness :
  ∃ c' : Complaint.t,
    complaints (put_api_complaints "1" resolved logged_db).1 !! 0 = Some c'
    ∧ Complaint.status c' = Some "Resolved"
    ∧ Complaint.assignedTo c' = Some "T01"
    ∧ Complaint.title c' = Some "Noise"
    ∧ Complaint.history c' = Some [JStr "opened"]
    ∧ Complaint.chat c' = Some [JStr "hello"]
    ∧ complaints (put_api_complaints "1" resolved logged_db).1 !! 1
      = complaints logged_db !! 1.
Proof.
  destruct (update_complaint_frame logged_db "1" resolved 0
              (Complaint.set logged (Complaint.new 0 (Complaint.with_id "1" noise))))
    as (c' & -> & _ & Hf & _ & Hother & _).
  - by vm_compute.
  - intros pid j x [=].
  - exists c'. split_and!.
    + done.
    + apply (Hf Complaint.Status).
    + apply (Hf Complaint.AssignedTo).
    + apply (Hf Complaint.Title).
    + apply (Hf Complaint.History).
    + apply (Hf Complaint.Chat).
    + by apply Hother.
Defined.

(** C9. Deleting by id answers [{ success: true }]; afterwards no stored
    complaint carries the id; without a match the collection is as before;
    with a match exactly that document goes, and its history and chat
    entries, which live nowhere but inside it, go with it. *)
Theorem delete_complaint_removes (db : Db) (id : string) :
  reachable db →
  ∃ cs' : list Complaint.t,
    delete_api_complaints id db = (set_complaints cs' db, json_success)
    ∧ (∀ c : Complaint.t, c ∈ cs' → Complaint.id c ≠ Some id)
    ∧ ((∀ c : Complaint.t, c ∈ complaints db → Complaint.id c ≠ Some id) →
       cs' = complaints db)
    ∧ ∀ c : Complaint.t,
        c ∈ complaints db → Complaint.id c = Some id →
        ∃ c1 c2 : list Complaint.t,
          complaints db = c1 ++ c :: c2 ∧ cs' = c1 ++ c2
          ∧ stored_history (complaints db)
            = stored_history c1 ++ default [] (Complaint.history c)
              ++ stored_history c2
          ∧ stored_history cs' = stored_history c1 ++ stored_history c2
          ∧ stored_chat (complaints db)
            = stored_chat c1 ++ default [] (Complaint.chat c)
              ++ stored_chat c2
          ∧ stored_chat cs' = stored_chat c1 ++ stored_chat c2.
Proof.
  intros [_ Hid _ _]%reachable_Inv.
  exists (findOneAndDelete (λ c : Complaint.t, Complaint.id c = Some id)
            (complaints db)).
  split; [done|].
  destruct (list_find (λ c : Complaint.t, Complaint.id c = Some id)
              (complaints db)) as [[i d]|] eqn:E.
  - destruct (findOneAndDelete_match _ _ _ _ E)
      as (c1 & c2 & Hcs & -> & Hd & Hc1).
    assert (∀ c : Complaint.t, c ∈ c1 ++ c2 → Complaint.id c ≠ Some id) as Hgone.
    { intros c [Hc|Hc]%elem_of_app; [by apply Hc1|].
      intros Hc'. rewrite Hcs, fmap_app, fmap_cons in Hid.
      apply NoDup_app in Hid as (_ & _ & [Hfresh _]%NoDup_cons).
      apply Hfresh. unfold Complaint.key at 1. rewrite Hd, <-Hc'.
      by apply (list_elem_of_fmap_2 Complaint.key). }
    split_and!; [done| |].
    + intros Hno. destruct (Hno d); [|done].
      rewrite Hcs. apply elem_of_app. right. left.
    + intros c Hc Hcid.
      assert (c = d) as ->.
      { apply (NoDup_fmap_eq Complaint.key (complaints db)); [done..| |].
        - rewrite Hcs. apply elem_of_app. right. left.
        - unfold Complaint.key. congruence. }
      exists c1, c2. rewrite Hcs. unfold stored_history, stored_chat.
      by rewrite !fmap_app, !fmap_cons, !concat_app, !concat_cons.
  - apply list_find_None in E. rewrite Forall_forall in E.
    rewrite findOneAndDelete_no_match by done.
    split_and!; [done..|]. intros c Hc Hcid. by destruct (E c).
Qed.

(** Deleting the complaint that holds the only history and chat entries. *)
Lemma delete_complaint_witness :
  (delete_api_complaints "1" logged_db).2 = json_success
  ∧ ∀ c : Complaint.t,
      c ∈ complaints (delete_api_complaints "1" logged_db).1 →
      Complaint.id c ≠ Some "1".
Proof.
  destruct (delete_complaint_removes logged_db "1") as (cs' & -> & Hgone & _).
  - by exists [FileComplaint noise; UpdateComplaint "1" logged;
               FileComplaint noise].
  - done.
Defined.

(** The entries before and after that delete. *)
Example delete_takes_history_and_chat :
  stored_history (complaints logged_db) = [JStr "opened"]
  ∧ stored_chat (complaints logged_db) = [JStr "hello"]
  ∧ stored_history (complaints (delete_api_complaints "1" logged_db).1) = []
  ∧ stored_chat (complaints (delete_api_complaints "1" logged_db).1) = []
  ∧ Complaint.key <$> complaints (delete_api_complaints "1" logged_db).1
    = [Some "2"].
Proof. by vm_compute. Qed.

(** ** Further properties: the user store *)

Section UserStore.
Implicit Types (db : Db) (u : User.t).

Lemma elem_of_delete_other {A} (l : list A) i (x y : A) :
  l !! i = Some x → y ∈ l → y ≠ x → y ∈ delete i l.
Proof.
  intros Hi [j Hj]%list_elem_of_lookup Hne.
  destruct (decide (j < i)) as [Hlt|Hge].
  - apply list_elem_of_lookup. exists j. by rewrite list_lookup_delete_lt.
  - assert (j ≠ i) by (intros ->; congruence).
    apply list_elem_of_lookup. exists (j - 1).
    rewrite list_lookup_delete_ge by lia. by replace (S (j - 1)) with j by lia.
Qed.

(** [findOneAndDelete] right after an insert of the only match. *)
Lemma findOneAndDelete_last {D} (P : D → Prop) `{!∀ d, Decision (P d)}
  (l : list D) (d : D) :
  (∀ x, x ∈ l → ¬ P x) → P d → findOneAndDelete P (l ++ [d]) = l.
Proof.
  intros Hl Hd.
  destruct (list_find P (l ++ [d])) as [[i x]|] eqn:E.
  - destruct (findOneAndDelete_match _ _ _ _ E)
      as (c1 & c2 & Hsplit & -> & Hx & Hc1).
    destruct c2 as [|y c2 _] using rev_ind.
    + apply app_inj_tail in Hsplit as [-> _]. by rewrite app_nil_r.
    + rewrite app_comm_cons, app_assoc in Hsplit.
      apply app_inj_tail in Hsplit as [-> _].
      destruct (Hl x); [|done]. apply elem_of_app. right. left.
  - apply list_find_None in E. rewrite Forall_forall in E.
    destruct (E d); [|done]. apply elem_of_app. right. left.
Qed.

End UserStore.

(** X1. An update of a user id that no stored user carries answers
    [{ success: true }] and leaves the database as it was. *)
Theorem update_missing_user_noop (db : Db) (id : string) (body : User.fields) :
  (∀ u : User.t, u ∈ users db → User.id u ≠ Some id) →
  put_api_users id body db = (db, json_success).
Proof.
  intros Hno. unfold put_api_users.
  rewrite findOneAndUpdate_no_match by done. by rewrite set_users_id.
Qed.

Lemma update_missing_user_witness :
  put_api_users "T99" renamed seeded_db = (seeded_db, json_success).
Proof.
  apply update_missing_user_noop.
  intros u Hu. vm_compute in Hu. each_member Hu.
Defined.

(** X2. User ids are not unique: an update by id changes the first user in
    insertion order that carries the id, and only that one.  When the body
    brings no email, or one that no other user has, the fields of the body
    are set on that user, its [_id] stays, and every other user, the later
    ones with the same id among them, is as before. *)
Theorem update_user_first_match_only
  (db : Db) (id : string) (body : User.fields) (i : nat) (u : User.t) :
  list_find (λ u : User.t, User.id u = Some id) (users db) = Some (i, u) →
  (∀ (e : string) (j : nat) (x : User.t),
     User.email body = Some e → users db !! j = Some x → j ≠ i →
     User.email x ≠ Some e) →
  put_api_users id body db
  = (set_users (<[i := User.set body u]> (users db)) db, json_success)
  ∧ User._id (User.set body u) = User._id u
  ∧ (∀ j, j < i → ∀ x : User.t, users db !! j = Some x → User.id x ≠ Some id)
  ∧ ∀ j, j ≠ i →
      <[i := User.set body u]> (users db) !! j = users db !! j.
Proof.
  intros Hfind Hfree. split_and!.
  - unfold put_api_users, findOneAndUpdate. rewrite Hfind.
    unfold replaceAt. rewrite decide_False; [done|].
    intros [Hne Hdup]. unfold User.key in *. simpl in *.
    destruct (User.email body) as [e|] eqn:He; simpl in *; [|done].
    apply list_elem_of_fmap in Hdup as (x & Hx & Hin).
    apply list_elem_of_lookup in Hin as [j Hj].
    destruct (decide (j < i)) as [Hlt|Hge].
    + rewrite list_lookup_delete_lt in Hj by done.
      apply (Hfree e _ x eq_refl) in Hj; [done|lia].
    + rewrite list_lookup_delete_ge in Hj by lia.
      apply (Hfree e _ x eq_refl) in Hj; [done|lia].
  - done.
  - apply list_find_Some in Hfind as (_ & _ & Hleast).
    intros j Hj x Hx. by eapply Hleast.
  - intros j Hj. by apply list_lookup_insert_ne.
Qed.

(** Two users with the id "S1": the first is renamed, the second is not. *)
Lemma update_user_first_match_witness :
  User.name <$> (User.data <$> users (put_api_users "S1" renamed twins_db).1)
  = [Some "Ann"; None].
Proof.
  destruct (update_user_first_match_only twins_db "S1" renamed 0
              (User.new 0 (twin "a@x.com"))) as (-> & _).
  - by vm_compute.
  - intros e j x [=].
  - by vm_compute.
Defined.

(** X3. An update that would give a user the email of another stored user
    is rejected by the unique index: the answer is 500 and the database is
    as it was. *)
Theorem update_user_email_taken
  (db : Db) (id : string) (body : User.fields) (i : nat) (u x : User.t)
  (e : string) :
  list_find (λ u : User.t, User.id u = Some id) (users db) = Some (i, u) →
  User.email body = Some e → User.email u ≠ Some e →
  x ∈ users db → User.email x = Some e →
  put_api_users id body db = (db, status_error 500 (message DuplicateKey)).
Proof.
  intros Hfind He Hu Hx Hxe. unfold put_api_users, findOneAndUpdate.
  rewrite Hfind. unfold replaceAt. rewrite decide_True; [done|].
  unfold User.key. simpl. rewrite He. simpl. split; [congruence|].
  rewrite <-Hxe. apply (list_elem_of_fmap_2 (λ u : User.t, User.email u)).
  apply list_find_Some in Hfind as (Hi & _).
  eapply elem_of_delete_other; [done..|]. intros ->. done.
Qed.

(** After the seed, "T01" may not take the email of "T02". *)
Lemma update_user_email_taken_witness :
  put_api_users "T01" takes_email seeded_db
  = (seeded_db, status_error 500 "E11000 duplicate key error").
Proof.
  apply (update_user_email_taken seeded_db "T01" takes_email 0
           (User.new 0 (default User.empty (demoUsers !! 0)))
           (User.new 1 (default User.empty (demoUsers !! 1)))
           "teacher2@example.com").
  - by vm_compute.
  - done.
  - done.
  - vm_compute. right. left.
  - done.
Defined.

(** X4. Deleting a user by email answers [{ success: true }] whether or not
    the email is known; afterwards no stored user has the email; without a
    match the users are as before, with a match exactly that user is gone;
    the complaints are never touched. *)
Theorem delete_user_removes (db : Db) (email : string) :
  reachable db →
  ∃ us' : list User.t,
    delete_api_users email db = (set_users us' db, json_success)
    ∧ (∀ u : User.t, u ∈ us' → User.email u ≠ Some email)
    ∧ ((∀ u : User.t, u ∈ users db → User.email u ≠ Some email) →
       us' = users db)
    ∧ ∀ u : User.t,
        u ∈ users db → User.email u = Some email →
        ∃ us1 us2 : list User.t, users db = us1 ++ u :: us2 ∧ us' = us1 ++ us2.
Proof.
  intros [Hemail _ _ _]%reachable_Inv.
  exists (findOneAndDelete (λ u : User.t, User.email u = Some email) (users db)).
  split; [done|].
  destruct (list_find (λ u : User.t, User.email u = Some email) (users db))
    as [[i d]|] eqn:E.
  - destruct (findOneAndDelete_match _ _ _ _ E)
      as (us1 & us2 & Hus & -> & Hd & Hus1).
    split_and!.
    + intros u [Hu|Hu]%elem_of_app; [by apply Hus1|].
      intros Hu'. rewrite Hus, fmap_app, fmap_cons in Hemail.
      apply NoDup_app in Hemail as (_ & _ & [Hfresh _]%NoDup_cons).
      apply Hfresh. unfold User.key at 1. rewrite Hd, <-Hu'.
      by apply (list_elem_of_fmap_2 User.key).
    + intros Hno. destruct (Hno d); [|done].
      rewrite Hus. apply elem_of_app. right. left.
    + intros u Hu Hue.
      assert (u = d) as ->.
      { apply (NoDup_fmap_eq User.key (users db)); [done..| |].
        - rewrite Hus. apply elem_of_app. right. left.
        - unfold User.key. congruence. }
      by exists us1, us2.
  - apply list_find_None in E. rewrite Forall_forall in E.
    rewrite findOneAndDelete_no_match by done.
    split_and!; [done..|]. intros u Hu Hue. by destruct (E u).
Qed.

Lemma delete_user_witness :
  User.email
    <$> (User.data <$> users (delete_api_users "teacher1@example.com" seeded_db).1)
  = [Some "teacher2@example.com"; Some "ecedepartment100@gmail.com"]
  ∧ ∀ u : User.t,
      u ∈ users (delete_api_users "teacher1@example.com" seeded_db).1 →
      User.email u ≠ Some "teacher1@example.com".
Proof.
  split; [by vm_compute|].
  destruct (delete_user_removes seeded_db "teacher1@example.com")
    as (us' & -> & Hgone & _); [by exists [Seed]|done].
Defined.

(** ** Further properties: round trips *)

Section RoundTrips.
Context {D : Type}.
Implicit Types (c : list D) (d : D).

Lemma findOne_last (P : D → Prop) `{!∀ d, Decision (P d)} c d :
  (∀ x, x ∈ c → ¬ P x) → P d → findOne P (c ++ [d]) = Some d.
Proof.
  intros Hc Hd. destruct (findOne P (c ++ [d])) as [x|] eqn:E.
  - apply findOne_Some in E as [[Hx|Hx]%elem_of_app HP].
    + by destruct (Hc x).
    + by apply list_elem_of_singleton in Hx as ->.
  - rewrite findOne_None in E. destruct (E d); [|done].
    apply elem_of_app. right. left.
Qed.

Lemma findOneAndDelete_gone (f : D → option string) (k : option string) c x :
  NoDup (f <$> c) → x ∈ findOneAndDelete (λ d, f d = k) c → f x ≠ k.
Proof.
  intros Hnd. destruct (list_find (λ d, f d = k) c) as [[i d]|] eqn:E.
  - destruct (findOneAndDelete_match _ _ _ _ E)
      as (c1 & c2 & Hc & -> & Hd & Hc1).
    intros [Hx|Hx]%elem_of_app; [by apply Hc1|].
    intros Hx'. rewrite Hc, fmap_app, fmap_cons in Hnd.
    apply NoDup_app in Hnd as (_ & _ & [Hfresh _]%NoDup_cons).
    apply Hfresh. rewrite Hd, <-Hx'. by apply list_elem_of_fmap_2.
  - apply list_find_None in E. rewrite Forall_forall in E.
    rewrite findOneAndDelete_no_match by done. apply E.
Qed.

Lemma insertOne_then_taken (ukey : D → option string) d d' c :
  ukey d' = ukey d →
  ukey d' ∈ ukey <$> (match insertOne ukey d c with
                      | Ok c' => c'
                      | Throw _ => c
                      end).
Proof.
  intros Hk. unfold insertOne. case_decide as Hin; [by rewrite Hk|].
  rewrite fmap_app, Hk. apply elem_of_app. right. left.
Qed.
End RoundTrips.

(** X5. Register, then log in: when no stored user has the email, the
    registration stores the new user (with [isAdmin] defaulted) after the
    others and answers [{ success: true }], and a login with the same email
    and pass returns exactly that user. *)
Theorem register_then_login
  (db : Db) (body : User.fields) (e p : string) :
  User.email body = Some e → User.pass body = Some p →
  (∀ u : User.t, u ∈ users db → User.email u ≠ Some e) →
  post_api_register body db
  = (set_users (users db ++ [User.new (next_oid db) body]) (tick 1 db),
     json_success)
  ∧ (post_api_login e p (post_api_register body db).1).2
    = json_user (User.new (next_oid db) body)
  ∧ User.isAdmin (User.new (next_oid db) body)
    = Some (default false (User.isAdmin body)).
Proof.
  intros He Hp Hfresh.
  assert (post_api_register body db
          = (set_users (users db ++ [User.new (next_oid db) body]) (tick 1 db),
             json_success)) as Hreg.
  { unfold post_api_register, insertOne. rewrite decide_False; [done|].
    intros (u & Hu & Hin)%list_elem_of_fmap. apply (Hfresh u Hin).
    unfold User.key in Hu. simpl in Hu. congruence. }
  split_and!; [done| |done].
  rewrite Hreg. unfold post_api_login. simpl.
  rewrite findOne_last; [done| |done].
  intros u Hu [Hu' _]. by apply (Hfresh u).
Qed.

Lemma register_then_login_witness :
  (post_api_login "s1@x.com" "pw"
     (post_api_register (student "s1@x.com" "1") seeded_db).1).2
  = json_user (User.new 3 (student "s1@x.com" "1")).
Proof.
  apply (register_then_login seeded_db (student "s1@x.com" "1")); [done..|].
  intros u Hu. vm_compute in Hu. each_member Hu.
Defined.

(** X6. Register, then delete by the same email: the users are those from
    before the registration, and the complaints are untouched. *)
Theorem register_then_delete_user
  (db : Db) (body : User.fields) (e : string) :
  User.email body = Some e →
  (∀ u : User.t, u ∈ users db → User.email u ≠ Some e) →
  users (delete_api_users e (post_api_register body db).1).1 = users db
  ∧ complaints (delete_api_users e (post_api_register body db).1).1
    = complaints db.
Proof.
  intros He Hfresh.
  assert (post_api_register body db
          = (set_users (users db ++ [User.new (next_oid db) body]) (tick 1 db),
             json_success)) as ->.
  { unfold post_api_register, insertOne. rewrite decide_False; [done|].
    intros (u & Hu & Hin)%list_elem_of_fmap. apply (Hfresh u Hin).
    unfold User.key in Hu. simpl in Hu. congruence. }
  split; [|done]. simpl. by apply findOneAndDelete_last.
Qed.

Lemma register_then_delete_user_witness :
  users (delete_api_users "s1@x.com"
           (post_api_register (student "s1@x.com" "1") seeded_db).1).1
  = users seeded_db.
Proof.
  apply (register_then_delete_user seeded_db (student "s1@x.com" "1"));
    [done|].
  intros u Hu. vm_compute in Hu. each_member Hu.
Defined.

(** X7. File, then delete by the id that was sent back: the complaints are
    those from before the filing, and the users are untouched. *)
Theorem file_then_delete_complaint
  (db : Db) (body : Complaint.fields) (i : string) :
  (post_api_complaints body db).2 = json_success_id i →
  complaints (delete_api_complaints i (post_api_complaints body db).1).1
  = complaints db
  ∧ users (delete_api_complaints i (post_api_complaints body db).1).1
    = users db.
Proof.
  destruct (post_api_complaints_cases db body) as [[Hfresh ->]|[_ ->]];
    [|done].
  intros [= <-]. split; [|done]. simpl. apply findOneAndDelete_last; [|done].
  intros x Hx Hid. apply Hfresh. rewrite <-Hid.
  by apply (list_elem_of_fmap_2 Complaint.key).
Qed.

Lemma file_then_delete_complaint_witness :
  complaints (delete_api_complaints "3"
                (post_api_complaints noise two_complaints_db).1).1
  = complaints two_complaints_db.
Proof. apply file_then_delete_complaint. by vm_compute. Defined.

(** X8. Delete a user, then log in with that email: the answer is 401
    whatever the pass, in every reachable database. *)
Theorem login_after_delete_user (db : Db) (e p : string) :
  reachable db →
  post_api_login e p (delete_api_users e db).1
  = ((delete_api_users e db).1, status_error 401 "Invalid credentials").
Proof.
  intros [Hemail _ _ _]%reachable_Inv. unfold post_api_login.
  rewrite (proj2 (findOne_None _ _)); [done|].
  intros u Hu [He _]. simpl in Hu.
  by apply (findOneAndDelete_gone User.key (Some e)) in Hu.
Qed.

Lemma login_after_delete_user_witness :
  (post_api_login "teacher1@example.com" "pass123"
     (delete_api_users "teacher1@example.com" seeded_db).1).2
  = status_error 401 "Invalid credentials".
Proof.
  rewrite (login_after_delete_user seeded_db); [done|by exists [Seed]].
Defined.

(** X9. After any registration attempt, accepted or not, a registration
    with the same email is rejected with 400 and changes nothing.  A body
    without an email counts as one email: the store takes at most one user
    without an email. *)
Theorem register_twice_rejected :
  ∀ (db : Db) (body body' : User.fields),
    User.email body' = User.email body →
    post_api_register body' (post_api_register body db).1
    = ((post_api_register body db).1,
       status_error 400 "Email likely already exists").
Proof.
  intros db body body' He.
  pose proof (insertOne_then_taken User.key
                (User.new (next_oid db) body)
                (User.new (next_oid (post_api_register body db).1) body')
                (users db) He) as Hin.
  unfold post_api_register at 1 3.
  destruct (insertOne User.key (User.new (next_oid (post_api_register body db).1) body') _)
    as [us|err] eqn:E; [|done].
  apply insertOne_Ok in E as [Hfresh _]. destruct Hfresh.
  unfold post_api_register. by destruct (insertOne _ _ (users db)).
Qed.

(** A second user without an email, after the first was accepted. *)
Lemma register_twice_witness :
  post_api_register User.empty (post_api_register User.empty empty_db).1
  = ((post_api_register User.empty empty_db).1,
     status_error 400 "Email likely already exists").
Proof. by apply (register_twice_rejected empty_db User.empty User.empty). Defined.

(** Two registrations without an email. *)
Example second_user_without_email :
  (run [Register User.empty; Register User.empty] empty_db).2
  = [json_success; status_error 400 "Email likely already exists"].
Proof. by vm_compute. Qed.

(** ** Further properties: filing after deletes, listing *)

Section FilingRuns.
Implicit Types (db : Db) (body : Complaint.fields).

Lemma dense_length db n :
  Complaint.key <$> complaints db = dense n → length (complaints db) = n.
Proof.
  intros Hdb. rewrite <-(length_fmap Complaint.key), Hdb.
  unfold dense. by rewrite length_fmap, length_seq.
Qed.

(** The database after filings into a collection with the ids 1..n. *)
Lemma run_files_state bodies db n :
  Complaint.key <$> complaints db = dense n →
  (run (FileComplaint <$> bodies) db).1
  = set_complaints
      (complaints db
       ++ imap (λ k body,
                  Complaint.new (next_oid db + k)
                    (Complaint.with_id (pretty (n + k + 1)) body)) bodies)
      (tick (length bodies) db).
Proof.
  revert db n. induction bodies as [|body bodies IH]; intros db n Hdb.
  { simpl. rewrite app_nil_r. by destruct db. }
  pose proof (dense_length db n Hdb) as Hlen.
  cbn [fmap list_fmap run serve].
  destruct (post_api_complaints_cases db body) as [[_ ->]|[Hdup _]].
  - set (db1 := set_complaints _ _).
    assert (Complaint.key <$> complaints db1 = dense (S n)) as Hdb1.
    { unfold db1, dense. cbn [complaints set_complaints].
      rewrite fmap_app, Hdb, seq_S, fmap_app. cbn [fmap list_fmap].
      unfold dense. by rewrite Hlen, Nat.add_1_r. }
    specialize (IH db1 (S n) Hdb1).
    destruct (run _ db1) as [db2 resps]. cbn [fst] in *. rewrite IH.
    unfold db1, set_complaints, tick. cbn [users complaints next_oid length].
    f_equal; [|lia]. rewrite <-app_assoc. f_equal. cbn [imap app].
    rewrite Hlen, !Nat.add_0_r. f_equal.
    apply imap_ext. intros k b _. cbn.
    replace (next_oid db + S k) with (S (next_oid db + k)) by lia.
    by replace (n + S k + 1) with (S (n + k + 1)) by lia.
  - rewrite Hdb, Hlen in Hdup. by apply pretty_fresh in Hdup.
Qed.

Lemma run_files_keys bodies :
  Complaint.key <$> complaints (run (FileComplaint <$> bodies) empty_db).1
  = dense (length bodies).
Proof.
  rewrite (run_files_state bodies empty_db 0) by done.
  cbn [complaints set_complaints empty_db app]. unfold dense.
  rewrite fmap_imap. apply list_eq. intros k.
  rewrite list_lookup_imap, list_lookup_fmap.
  destruct (bodies !! k) as [b|] eqn:Hk; simpl.
  - rewrite lookup_seq_lt by by eapply lookup_lt_Some. simpl.
    unfold Complaint.key. simpl. by rewrite Nat.add_1_r.
  - rewrite lookup_seq_ge; [done|]. by apply lookup_ge_None.
Qed.
End FilingRuns.

(** X10. While a stored complaint carries the id that comes next, that is
    the decimal string of (count + 1), every filing is rejected with 500 and
    changes nothing, however often it is tried and whatever the bodies. *)
Theorem filing_blocked_while_id_taken
  (db : Db) (bodies : list Complaint.fields) (c : Complaint.t) :
  c ∈ complaints db →
  Complaint.id c = Some (pretty (length (complaints db) + 1)) →
  run (FileComplaint <$> bodies) db
  = (db, replicate (length bodies) (status_error 500 (message DuplicateKey))).
Proof.
  intros Hc Hid. induction bodies as [|body bodies IH]; [done|].
  cbn [fmap list_fmap run serve].
  destruct (post_api_complaints_cases db body) as [[Hfresh _]|[_ ->]].
  - destruct Hfresh. rewrite <-Hid.
    by apply (list_elem_of_fmap_2 Complaint.key).
  - fold (fmap (M:=list) FileComplaint bodies). by rewrite IH.
Qed.

(** Two filed, "1" deleted: the next id is "2", which is taken. *)
Lemma filing_blocked_witness :
  run [FileComplaint noise; FileComplaint resolved] blocked_db
  = (blocked_db,
     [status_error 500 "E11000 duplicate key error";
      status_error 500 "E11000 duplicate key error"]).
Proof.
  apply (filing_blocked_while_id_taken blocked_db [noise; resolved]
           (Complaint.new 1 (Complaint.with_id "2" noise))).
  - vm_compute. left.
  - by vm_compute.
Defined.

(** X11. After n filings into the empty store, deleting any complaint but
    the last one blocks filing: the count is n - 1, the next id is the one
    of the last complaint, and the filing is rejected with 500. *)
Theorem delete_before_last_blocks_filing
  (bodies : list Complaint.fields) (k : nat) (body : Complaint.fields) :
  1 ≤ k < length bodies →
  let db := (run (FileComplaint <$> bodies) empty_db).1 in
  let db' := (delete_api_complaints (pretty k) db).1 in
  length (complaints db') = length bodies - 1
  ∧ post_api_complaints body db'
    = (db', status_error 500 (message DuplicateKey)).
Proof.
  intros Hk db db'.
  pose proof (run_files_keys bodies) as Hkeys. fold db in Hkeys.
  pose proof (dense_length _ _ Hkeys) as Hlen.
  assert (∀ j : nat, (1 ≤ j ≤ length bodies)%nat →
               ∃ x : Complaint.t, x ∈ complaints db ∧
                                  Complaint.id x = Some (pretty j)) as Hhas.
  { intros j Hj.
    assert (Some (pretty j) ∈ Complaint.key <$> complaints db) as Hin.
    { rewrite Hkeys. apply list_elem_of_fmap. exists j. split; [done|].
      apply elem_of_seq. lia. }
    apply list_elem_of_fmap in Hin as (x & Hx & Hin). by exists x. }
  destruct (Hhas k) as (d & Hd & Hdk); [lia|].
  destruct (Hhas (length bodies)) as (z & Hz & Hzn); [lia|].
  destruct (list_find (λ c : Complaint.t, Complaint.id c = Some (pretty k))
              (complaints db)) as [[i d']|] eqn:E.
  2:{ apply list_find_None in E. rewrite Forall_forall in E.
      by destruct (E d Hd). }
  destruct (findOneAndDelete_match _ _ _ _ E)
    as (c1 & c2 & Hsplit & Hdel & Hd' & _).
  assert (complaints db' = c1 ++ c2) as Hdb' by done.
  assert (length (complaints db') = length bodies - 1) as Hlen'.
  { rewrite Hdb'. rewrite Hsplit in Hlen.
    rewrite length_app in Hlen |- *. simpl in Hlen. lia. }
  split; [done|].
  destruct (post_api_complaints_cases db' body) as [[Hfresh _]|[_ ->]];
    [|done].
  destruct Hfresh. rewrite Hlen'.
  replace (length bodies - 1 + 1) with (length bodies) by lia.
  rewrite <-Hzn. apply (list_elem_of_fmap_2 Complaint.key).
  rewrite Hdb'. rewrite Hsplit in Hz.
  apply elem_of_app in Hz as [Hz|[->|Hz]%elem_of_cons];
    [apply elem_of_app; by left| |apply elem_of_app; by right].
  rewrite Hzn in Hd'. injection Hd' as Heq.
  apply (inj pretty) in Heq. lia.
Qed.

(** Three filed, "2" deleted. *)
Lemma delete_before_last_witness :
  let db' :=
    (delete_api_complaints "2"
       (run (FileComplaint <$> [noise; noise; noise]) empty_db).1).1 in
  post_api_complaints noise db'
  = (db', status_error 500 "E11000 duplicate key error").
Proof.
  refine (proj2 (delete_before_last_blocks_filing [noise; noise; noise] 2
                   noise _)).
  simpl. lia.
Defined.

(** X12. Listing after n filings into the empty store returns the n
    complaints in filing order, the k-th made of its body with the id k and
    with empty arrays where the body brought none. *)
Theorem list_after_filings :
  ∀ bodies : list Complaint.fields,
    (get_api_complaints (run (FileComplaint <$> bodies) empty_db).1).2
    = json_complaints
        (imap (λ k body,
                 Complaint.new k (Complaint.with_id (pretty (k + 1)) body))
           bodies)
    ∧ ∀ k body,
        bodies !! k = Some body →
        Complaint.title (Complaint.new k (Complaint.with_id (pretty (k + 1)) body))
        = Complaint.title body
        ∧ Complaint.history
            (Complaint.new k (Complaint.with_id (pretty (k + 1)) body))
          = Some (default [] (Complaint.history body)).
Proof.
  intros bodies. split; [|done].
  unfold get_api_complaints, find.
  rewrite (run_files_state bodies empty_db 0) by done.
  cbn [complaints set_complaints empty_db app snd next_oid].
  f_equal. clear. induction (imap _ bodies) as [|c cs IH]; [done|].
  rewrite filter_cons_True by done. by f_equal.
Qed.

(** ** Further properties: repeated promotion *)

Section RepeatedPromotion.
Implicit Types (db : Db) (u : User.t).

Lemma promote_times_S n db :
  promote_times (S n) db
  = (post_api_users_promote_all (promote_times n db)).1.
Proof. done. Qed.

Lemma promote_times_reachable n db :
  reachable db → reachable (promote_times n db).
Proof.
  intros Hr. induction n as [|n IH]; [done|].
  rewrite promote_times_S. by apply (reachable_serve PromoteAll).
Qed.

Lemma promote_times_users n db :
  reachable db →
  users (promote_times n db) = Nat.iter n promoted <$> users db.
Proof.
  intros Hr. induction n as [|n IH]; [by rewrite list_fmap_id|].
  rewrite promote_times_S, promote_all.
  - cbn [fst users set_users]. rewrite IH, <-list_fmap_compose. done.
  - by apply reachable_Inv, promote_times_reachable.
Qed.

Lemma promoted_role u : User.role (promoted u) = User.role u.
Proof. unfold promoted. by case_decide. Qed.

Lemma promoted_year u :
  User.role u = Some "student" →
  User.year (promoted u) = newYear (User.year u).
Proof. intros Hs. unfold promoted. by rewrite decide_True. Qed.

Lemma promoted_fixed u : ¬ promotable u → promoted u = u.
Proof.
  intros Hn. unfold promoted. case_decide as Hs; [|done].
  destruct (decide (newYear (User.year u) = User.year u)) as [Hy|Hy].
  - destruct u as [oid []]. simpl in *. by rewrite Hy.
  - destruct Hn. by split.
Qed.

Lemma newYear_settles y :
  newYear (Nat.iter 4 newYear y) = Nat.iter 4 newYear y.
Proof.
  destruct (decide (y = Some "1")) as [->|H1]; [done|].
  destruct (decide (y = Some "2")) as [->|H2]; [done|].
  destruct (decide (y = Some "3")) as [->|H3]; [done|].
  destruct (decide (y = Some "4")) as [->|H4]; [done|].
  assert (newYear y = y) as Hy
    by (unfold newYear; repeat case_decide; congruence).
  simpl. by rewrite !Hy.
Qed.

Lemma iter_promoted_student n u :
  User.role u = Some "student" →
  User.role (Nat.iter n promoted u) = Some "student"
  ∧ User.year (Nat.iter n promoted u) = Nat.iter n newYear (User.year u).
Proof.
  intros Hs. induction n as [|n [IHr IHy]]; [done|]. simpl.
  by rewrite promoted_role, promoted_year, IHy.
Qed.

Lemma iter_promoted_other n u :
  User.role u ≠ Some "student" → Nat.iter n promoted u = u.
Proof.
  intros Hs. induction n as [|n IH]; [done|]. simpl. rewrite IH.
  unfold promoted. by rewrite decide_False.
Qed.

Lemma settled u : ¬ promotable (Nat.iter 4 promoted u).
Proof.
  destruct (decide (User.role u = Some "student")) as [Hs|Hs].
  - destruct (iter_promoted_student 4 u Hs) as [_ Hy].
    intros [_ Hne]. apply Hne. rewrite Hy. apply newYear_settles.
  - rewrite iter_promoted_other by done. by intros [? _].
Qed.
End RepeatedPromotion.

(** X13. Promotion has no guard against a second run: two promotions in a
    row move every student two steps, 1→3, 2→4, 3→Graduated. *)
Theorem promote_twice_two_steps (db : Db) :
  reachable db →
  users (promote_times 2 db) = (promoted ∘ promoted) <$> users db
  ∧ (∀ u : User.t,
       User.role u = Some "student" →
       User.year (promoted (promoted u)) = newYear (newYear (User.year u)))
  ∧ newYear (newYear (Some "1")) = Some "3"
  ∧ newYear (newYear (Some "2")) = Some "4"
  ∧ newYear (newYear (Some "3")) = Some "Graduated".
Proof.
  intros Hr. split_and!; [by rewrite promote_times_users| |done..].
  intros u Hs. rewrite promoted_year by by rewrite promoted_role.
  by rewrite promoted_year.
Qed.

Lemma promote_twice_witness :
  User.year <$> (User.data <$> users (promote_times 2 school_db))
  = [None; None; None; Some "Graduated"; Some "Graduated"; Some "Graduated"].
Proof.
  destruct (promote_twice_two_steps school_db) as [-> _]; [|by vm_compute].
  by exists [Seed; Register (student "s1@x.com" "3");
             Register (student "s2@x.com" "4");
             Register (student "s3@x.com" "Graduated")].
Defined.

(** X14. Promotion settles: after four promotions no student is in year 1,
    2, 3 or 4, and a further promotion writes nothing, leaves the database
    as it is and sends the count 0. *)
Theorem promotion_settles_after_four (db : Db) :
  reachable db →
  post_api_users_promote_all (promote_times 4 db)
  = (promote_times 4 db, json_success_count 0)
  ∧ ∀ u : User.t,
      u ∈ users (promote_times 4 db) → User.role u = Some "student" →
      User.year u ∉ [Some "1"; Some "2"; Some "3"; Some "4"].
Proof.
  intros Hr.
  assert (∀ u : User.t, u ∈ users (promote_times 4 db) → ¬ promotable u)
    as Hsettled.
  { intros u. rewrite promote_times_users by done.
    intros (u0 & -> & _)%list_elem_of_fmap. apply settled. }
  split.
  - rewrite promote_all
      by by apply reachable_Inv, promote_times_reachable.
    f_equal.
    + assert (promoted <$> users (promote_times 4 db)
              = users (promote_times 4 db)) as ->; [|apply set_users_id].
      rewrite <-(list_fmap_id (users (promote_times 4 db))) at 2.
      apply list_fmap_ext. intros i u Hu. apply promoted_fixed, Hsettled.
      by eapply list_elem_of_lookup_2.
    + f_equal. revert Hsettled. generalize (users (promote_times 4 db)).
      induction l as [|u us IH]; intros Hall; [done|].
      rewrite filter_cons_False by (apply Hall; left).
      apply IH. intros x Hx. apply Hall. by right.
  - intros u Hu Hs Hy. apply (Hsettled u Hu). split; [done|].
    rewrite !elem_of_cons, elem_of_nil in Hy.
    destruct Hy as [->|[->|[->|[->|[]]]]]; done.
Qed.

Lemma promotion_settles_witness :
  (post_api_users_promote_all (promote_times 4 school_db)).2
  = json_success_count 0.
Proof.
  destruct (promotion_settles_after_four school_db) as [-> _]; [|done].
  by exists [Seed; Register (student "s1@x.com" "3");
             Register (student "s2@x.com" "4");
             Register (student "s3@x.com" "Graduated")].
Defined.

(** ** Further properties: what every stored document has *)

Section Completeness.
Context {D : Type} (Q : D → Prop).
Implicit Types (c : list D) (d : D).



End Completeness.





(** ** Further properties: the earlier copy, and which collection a request
    touches *)


Section Frames.
Context {D : Type} (ukey : D → option string).

Lemma findOneAndUpdate_length (P : D → Prop) `{!∀ d, Decision (P d)}
  upd (c c' : list D) :
  findOneAndUpdate ukey P upd c = Ok c' → length c' = length c.
Proof.
  unfold findOneAndUpdate, replaceAt.
  destruct (list_find P c) as [[i d]|]; [|by intros [= <-]].
  case_decide; [done|]. intros [= <-]. apply length_insert.
Qed.
End Frames.

(** X17. A request of the user section (the seed and promotion included)
    leaves the complaints as they are; a request of the complaint section
    leaves the users as they are; and only filing and deleting change the
    number of complaints, so an update never moves the next id. *)
Theorem requests_keep_to_their_collection :
  ∀ (r : Request) (db : Db),
    (on_users r → complaints (serve r db).1 = complaints db)
    ∧ (on_complaints r → users (serve r db).1 = users db)
    ∧ match r with
      | FileComplaint _ | DeleteComplaint _ => True
      | _ => length (complaints (serve r db).1) = length (complaints db)
      end.
Proof.
  assert (∀ db, complaints (seedUsers db) = complaints db) as Hseed.
  { intros db. unfold seedUsers. by case_decide. }
  assert (∀ db, complaints (post_api_users_promote_all db).1 = complaints db)
    as Hpromote.
  { intros db. unfold post_api_users_promote_all.
    by destruct (if decide _ then _ else _) as [us [e|]]. }
  intros r db. destruct r; simpl; split_and!; try done.
  all: try (intros _).
  all: rewrite ?Hseed, ?Hpromote; try done.
  all: unfold post_api_login, post_api_register, put_api_users,
         post_api_complaints, put_api_complaints.
  all: try by destruct (findOne _ _).
  all: try by destruct (insertOne _ _ _).
  all: try by destruct (findOneAndUpdate _ _ _ _).
  destruct (findOneAndUpdate _ _ _ _) as [cs|e] eqn:E; [|done].
  simpl. by eapply findOneAndUpdate_length.
Qed.

(** X18. In every reachable database no two stored complaints carry the
    same id, so an update or a delete by id addresses at most one complaint:
    the first match is the only match. *)
Theorem complaint_ids_unique (db : Db) (id : string) (c : Complaint.t) :
  reachable db → c ∈ complaints db → Complaint.id c = Some id →
  findOne (λ c : Complaint.t, Complaint.id c = Some id) (complaints db) = Some c
  ∧ find (λ c : Complaint.t, Complaint.id c = Some id) (complaints db) = [c]
  ∧ ∀ c' : Complaint.t,
      c' ∈ complaints db → Complaint.id c' = Some id → c' = c.
Proof.
  intros [_ Hid _ _]%reachable_Inv Hc Hcid.
  assert (∀ c' : Complaint.t,
            c' ∈ complaints db → Complaint.id c' = Some id → c' = c) as Huniq.
  { intros c' Hc' Hcid'.
    apply (NoDup_fmap_eq Complaint.key (complaints db)); [done..|].
    unfold Complaint.key. congruence. }
  split_and!; [| |done].
  - destruct (findOne _ _) as [c'|] eqn:E.
    + apply findOne_Some in E as [Hc' Hcid']. f_equal. by apply Huniq.
    + rewrite findOne_None in E. by destruct (E c Hc).
  - unfold find. apply list_elem_of_split in Hc as (c1 & c2 & Hsplit).
    rewrite Hsplit in Hid, Huniq |- *.
    rewrite fmap_app, fmap_cons in Hid.
    apply NoDup_app in Hid as (_ & Hsep & [Hfresh _]%NoDup_cons).
    rewrite filter_app, filter_cons_True by done.
    assert (∀ l : list Complaint.t,
              (∀ x, x ∈ l → Complaint.key x ≠ Complaint.key c) →
              filter (λ c : Complaint.t, Complaint.id c = Some id) l = [])
      as Hnone.
    { induction l as [|x l IH]; intros Hl; [done|].
      rewrite filter_cons_False.
      - apply IH. intros y Hy. apply Hl. by right.
      - intros Hx. apply (Hl x); [left|]. unfold Complaint.key. congruence. }
    rewrite !Hnone; [done| |].
    + intros x Hx Hk. apply Hfresh. rewrite <-Hk.
      by apply list_elem_of_fmap_2.
    + intros x Hx Hk. apply (Hsep (Complaint.key x)).
      * by apply list_elem_of_fmap_2.
      * rewrite Hk. left.
Qed.

Lemma complaint_ids_unique_witness :
  find (λ c : Complaint.t, Complaint.id c = Some "2") (complaints logged_db)
  = [Complaint.new 1 (Complaint.with_id "2" noise)].
Proof.
  apply (complaint_ids_unique logged_db "2").
  - by exists [FileComplaint noise; UpdateComplaint "1" logged;
               FileComplaint noise].
  - vm_compute. right. left.
  - done.
Defined.
